(** * CareFi analysis pipeline: rate limiter, vision client, orchestrator,
      summary mapper and the two API routes, embedded from the TypeScript
      sources and checked against the pipeline specification.

    Conventions of the embedding:
    - [Date.now()] and ISO timestamps are integers (milliseconds), type [Z];
    - JavaScript numbers that hold counters are integers extended with the
      IEEE values a division by zero produces ([JsNum.t]);
    - confidence values, random draws and delays are exact rationals ([Q]):
      every finite double is a rational, rounding is not modelled;
    - a [Map<string, _>] is a [gmap string _]; database tables are lists of
      rows in table order;
    - everything the code awaits from the outside (authentication, database
      outcomes, object storage, the model provider, the clock, the random
      source) is read from an explicit environment record. *)

From Stdlib Require Import ZArith QArith Qminmax Qpower String Ascii List Bool Lia.
From Stdlib Require Import DecimalString Lqa.
From stdpp Require Import gmap strings.
Import ListNotations.

Local Open Scope string_scope.
Local Open Scope Z_scope.

Set Warnings "-register-all".

(** ** JavaScript numbers, as far as the limiter's integer arithmetic goes *)

Module JsNum.

Inductive t : Type :=
| Fin (z : Z)
| PInf
| NInf
| NaN.

(** [Math.floor(a / b)] for integers [a], [b]; the divisor [0] is [+0]. *)
Definition div_floor (a b : Z) : t :=
  if b =? 0 then
    if 0 <? a then PInf else if a <? 0 then NInf else NaN
  else Fin (a / b).

Definition mul (x y : t) : t :=
  match x, y with
  | NaN, _ | _, NaN => NaN
  | Fin a, Fin b => Fin (a * b)
  | Fin a, PInf | PInf, Fin a =>
      if 0 <? a then PInf else if a <? 0 then NInf else NaN
  | Fin a, NInf | NInf, Fin a =>
      if 0 <? a then NInf else if a <? 0 then PInf else NaN
  | PInf, PInf | NInf, NInf => PInf
  | PInf, NInf | NInf, PInf => NInf
  end.

Definition add (x y : t) : t :=
  match x, y with
  | NaN, _ | _, NaN => NaN
  | Fin a, Fin b => Fin (a + b)
  | PInf, NInf | NInf, PInf => NaN
  | PInf, _ | _, PInf => PInf
  | NInf, _ | _, NInf => NInf
  end.

(** [Math.min(x, y)] *)
Definition min (x y : t) : t :=
  match x, y with
  | NaN, _ | _, NaN => NaN
  | NInf, _ | _, NInf => NInf
  | PInf, z | z, PInf => z
  | Fin a, Fin b => Fin (Z.min a b)
  end.

(** [x > 0] *)
Definition gt0 (x : t) : bool :=
  match x with
  | Fin z => 0 <? z
  | PInf => true
  | NInf | NaN => false
  end.

(** [x - 1], the value stored by [x--] *)
Definition pred (x : t) : t :=
  match x with
  | Fin z => Fin (z - 1)
  | other => other
  end.

(** [x === y] *)
Definition strict_eq (x y : t) : bool :=
  match x, y with
  | Fin a, Fin b => a =? b
  | PInf, PInf | NInf, NInf => true
  | _, _ => false
  end.

End JsNum.

(** ** Rate limiter (app/api/analysis/start/route.ts, class RateLimiter) *)

Record Bucket : Type := mkBucket {
  tokens : JsNum.t;
  lastRefill : Z
}.

Record RateLimiter : Type := mkRateLimiter {
  buckets : gmap string Bucket;
  maxTokens : Z;
  refillIntervalMs : Z;
  tokensPerRefill : Z
}.

(** [new RateLimiter(maxTokens, refillIntervalMs, tokensPerRefill)] *)
Definition newRateLimiter (maxT interval perRefill : Z) : RateLimiter :=
  mkRateLimiter ∅ maxT interval perRefill.

Definition with_buckets (rl : RateLimiter) (b : gmap string Bucket) : RateLimiter :=
  mkRateLimiter b (maxTokens rl) (refillIntervalMs rl) (tokensPerRefill rl).

(** The refill step of [checkLimit], applied to an existing bucket. *)
Definition refill (rl : RateLimiter) (now : Z) (bucket : Bucket) : Bucket :=
  let timeSinceRefill := now - lastRefill bucket in
  let refillsEarned := JsNum.div_floor timeSinceRefill (refillIntervalMs rl) in
  if JsNum.gt0 refillsEarned then
    mkBucket
      (JsNum.min (JsNum.Fin (maxTokens rl))
         (JsNum.add (tokens bucket)
            (JsNum.mul refillsEarned (JsNum.Fin (tokensPerRefill rl)))))
      now
  else bucket.

(** [checkLimit(key)] at clock reading [now]: the answer and the limiter
    after the call (the bucket object is mutated in place in the source). *)
Definition checkLimit (now : Z) (key : string) (rl : RateLimiter)
  : bool * RateLimiter :=
  match buckets rl !! key with
  | None =>
      let bucket := mkBucket (JsNum.Fin (maxTokens rl - 1)) now in
      (true, with_buckets rl (<[key := bucket]> (buckets rl)))
  | Some bucket0 =>
      let bucket := refill rl now bucket0 in
      if JsNum.gt0 (tokens bucket) then
        (true,
         with_buckets rl
           (<[key := mkBucket (JsNum.pred (tokens bucket)) (lastRefill bucket)]>
              (buckets rl)))
      else
        (false, with_buckets rl (<[key := bucket]> (buckets rl)))
  end.

(** [getRetryAfter(key)] at clock reading [now], in milliseconds. *)
Definition getRetryAfter (now : Z) (key : string) (rl : RateLimiter) : Z :=
  match buckets rl !! key with
  | None => 0
  | Some bucket =>
      let timeSinceRefill := now - lastRefill bucket in
      let timeUntilRefill := refillIntervalMs rl - timeSinceRefill in
      Z.max 0 timeUntilRefill
  end.

(** [cleanup()] at clock reading [now]. *)
Definition cleanup (now : Z) (rl : RateLimiter) : RateLimiter :=
  let maxAge := refillIntervalMs rl * 2 in
  with_buckets rl
    (filter
       (fun kb : string * Bucket =>
          ¬ (maxAge < now - lastRefill kb.2 ∧
             JsNum.strict_eq (tokens kb.2) (JsNum.Fin (maxTokens rl)) = true))
       (buckets rl)).

(** The global instance: [new RateLimiter(3, 0, 3)]. *)
Definition rateLimiter : RateLimiter := newRateLimiter 3 0 3.

(** The limiter the route's comments describe: 3 per 3600000 ms. *)
Definition documentedLimiter : RateLimiter := newRateLimiter 3 3600000 3.

(** [Math.ceil(a / b)] for an integer [a] and a positive integer [b]. *)
Definition ceil_div (a b : Z) : Z := - ((- a) / b).

(** A run of [checkLimit] for one key at successive clock readings. *)
Fixpoint checkLimit_run (key : string) (times : list Z) (rl : RateLimiter)
  : list bool * RateLimiter :=
  match times with
  | [] => ([], rl)
  | now :: rest =>
      let '(allowed, rl1) := checkLimit now key rl in
      let '(answers, rl2) := checkLimit_run key rest rl1 in
      (allowed :: answers, rl2)
  end.

(** ** Results of fallible code *)

Inductive result (E A : Type) : Type :=
| Ok (a : A)
| Err (e : E).
Arguments Ok {E A} a.
Arguments Err {E A} e.

(** ** Parsed JSON values *)

Inductive JSON : Type :=
| JNull
| JBool (b : bool)
| JNum (q : Q)
| JStr (s : string)
| JArr (items : list JSON)
| JObj (fields : list (string * JSON)).

(** [obj[key]]: [None] is [undefined]. *)
Fixpoint prop (key : string) (fields : list (string * JSON)) : option JSON :=
  match fields with
  | [] => None
  | (k, v) :: rest => if String.eqb k key then Some v else prop key rest
  end.

(** ** Vision analysis client (lib/ai/openai.ts) *)

Inductive Severity : Type := low | moderate | high.

Record SkinTrait : Type := mkSkinTrait {
  id : string;
  name : string;
  severity : Severity;
  description : string
}.

Record VisionAnalysis : Type := mkVisionAnalysis {
  skinType : string;
  confidence : Q;
  primaryConcern : string;
  traits : list SkinTrait;
  notes : list string;
  modelVersion : string
}.

(** [z.string().min(1)] on a required key *)
Definition z_string_min1 (v : option JSON) : option string :=
  match v with
  | Some (JStr s) => if (1 <=? String.length s)%nat then Some s else None
  | _ => None
  end.

(** [z.string()] as an array element *)
Definition z_string (v : JSON) : option string :=
  match v with
  | JStr s => Some s
  | _ => None
  end.

(** [z.enum(['low', 'moderate', 'high'])] *)
Definition z_severity (v : option JSON) : option Severity :=
  match v with
  | Some (JStr s) =>
      if String.eqb s "low" then Some low
      else if String.eqb s "moderate" then Some moderate
      else if String.eqb s "high" then Some high
      else None
  | _ => None
  end.

(** [z.enum(['Dry', 'Oily', 'Combination', 'Normal', 'Sensitive'])] *)
Definition skinTypes : list string :=
  ["Dry"; "Oily"; "Combination"; "Normal"; "Sensitive"].

Definition z_skinType (v : option JSON) : option string :=
  match v with
  | Some (JStr s) => if existsb (String.eqb s) skinTypes then Some s else None
  | _ => None
  end.

(** [z.number().min(0).max(100)] *)
Definition z_confidence (v : option JSON) : option Q :=
  match v with
  | Some (JNum q) =>
      if Qle_bool 0 q && Qle_bool q 100 then Some q else None
  | _ => None
  end.

(** [SkinTraitSchema.safeParse]: [None] is [success: false]. *)
Definition SkinTraitSchema (v : JSON) : option SkinTrait :=
  match v with
  | JObj fields =>
      i ← z_string_min1 (prop "id" fields);
      n ← z_string_min1 (prop "name" fields);
      s ← z_severity (prop "severity" fields);
      d ← z_string_min1 (prop "description" fields);
      Some (mkSkinTrait i n s d)
  | _ => None
  end.

(** [z.array(SkinTraitSchema).min(1)] on a required key *)
Definition z_traits (v : option JSON) : option (list SkinTrait) :=
  match v with
  | Some (JArr items) =>
      ts ← mapM SkinTraitSchema items;
      if (1 <=? length ts)%nat then Some ts else None
  | _ => None
  end.

(** [z.array(z.string()).default([])] *)
Definition z_notes (v : option JSON) : option (list string) :=
  match v with
  | None => Some []
  | Some (JArr items) => mapM z_string items
  | Some _ => None
  end.

(** [VisionAnalysisSchema.safeParse]: [None] is [success: false]. *)
Definition VisionAnalysisSchema (v : JSON) : option VisionAnalysis :=
  match v with
  | JObj fields =>
      st ← z_skinType (prop "skinType" fields);
      c ← z_confidence (prop "confidence" fields);
      pc ← z_string_min1 (prop "primaryConcern" fields);
      ts ← z_traits (prop "traits" fields);
      ns ← z_notes (prop "notes" fields);
      mv ← z_string_min1 (prop "modelVersion" fields);
      Some (mkVisionAnalysis st c pc ts ns mv)
  | _ => None
  end.

(** Values that reach a [catch] of the client: provider errors
    ([OpenAI.APIError] with its optional HTTP status, or anything else the
    SDK throws) and the client's own [VisionAnalysisError]. *)
Inductive Thrown : Type :=
| APIError (status : option Z) (message : string)
| VisionAnalysisError (message : string) (cause : option Thrown) (retryable : bool)
| OtherError (message : string).

Definition thrown_message (e : Thrown) : string :=
  match e with
  | APIError _ m | VisionAnalysisError m _ _ | OtherError m => m
  end.

(** [RETRY_CONFIG] *)
Definition maxAttempts : nat := 3.
Definition baseDelayMs : Q := 1000.
Definition maxDelayMs : Q := 10000.

(** [getRetryDelay(attempt)], with the draw of [Math.random()] as [rnd]. *)
Definition getRetryDelay (attempt : nat) (rnd : Q) : Q :=
  let exponentialDelay := (baseDelayMs * inject_Z (2 ^ Z.of_nat attempt))%Q in
  let jitter := (rnd * (3 # 10) * exponentialDelay)%Q in
  Qmin (exponentialDelay + jitter)%Q maxDelayMs.

(** [isRetryableError(error)] *)
Definition isRetryableError (error : Thrown) : bool :=
  match error with
  | APIError (Some status) _ =>
      (status =? 429) || ((500 <=? status) && (status <? 600))
  | _ => false
  end.

(** What the provider does on one [openai.chat.completions.create] call. *)
Inductive ProviderError : Type :=
| ProviderAPIError (status : option Z) (message : string)
| ProviderOther (message : string).

Definition thrown_of_provider (e : ProviderError) : Thrown :=
  match e with
  | ProviderAPIError s m => APIError s m
  | ProviderOther m => OtherError m
  end.

Inductive CreateOutcome : Type :=
| CreateThrows (e : ProviderError)
| CreateReturns (content_text : option string).

(** Observable steps of the client. *)
Inductive Event : Type :=
| Sleep (delay : Q)
| Create (attempt : nat) (imageUrls : list string).

Record VisionEnv : Type := mkVisionEnv {
  create : nat -> CreateOutcome;   (* outcome of the call of attempt n *)
  random : nat -> Q                (* Math.random() drawn before attempt n *)
}.

Definition nat_to_string (n : nat) : string :=
  NilEmpty.string_of_uint (Nat.to_uint n).

Section VisionClient.

(** Platform functions: [JSON.parse] ([None] when it throws) and
    [new URL(s).pathname] ([None] when the constructor throws). *)
Variable JSON_parse : string -> option JSON.
Variable URL_pathname : string -> option string.

Variable env : VisionEnv.

(** The body of the [try] block after the optional delay: the call and
    the handling of its reply. *)
Definition attempt_body (attempt : nat) : result Thrown VisionAnalysis :=
  match create env attempt with
  | CreateThrows e => Err (thrown_of_provider e)
  | CreateReturns content_text =>
      match content_text with
      | None | Some "" =>
          Err (VisionAnalysisError "OpenAI returned empty response" None true)
      | Some text =>
          match JSON_parse text with
          | None =>
              Err (VisionAnalysisError "OpenAI response is not valid JSON"
                     (Some (OtherError "SyntaxError")) false)
          | Some parsed =>
              match VisionAnalysisSchema parsed with
              | None =>
                  Err (VisionAnalysisError
                         "OpenAI response does not match expected schema"
                         (Some (OtherError "ZodError")) false)
              | Some data => Ok data
              end
          end
      end
  end.

Definition exhausted (lastError : option Thrown) : Thrown :=
  VisionAnalysisError
    ("OpenAI Vision API failed after " ++ nat_to_string maxAttempts ++ " attempts")
    lastError false.

Definition delay_before (attempt : nat) : list Event :=
  match attempt with
  | O => []
  | S prev => [Sleep (getRetryDelay prev (random env attempt))]
  end.

(** The [catch] block of the loop: re-throw the error, leave the loop, or
    go on with the next iteration. *)
Inductive CatchDecision : Type := Rethrow | Break | Continue.

Definition catch_block (attempt : nat) (error : Thrown) : CatchDecision :=
  match error with
  | VisionAnalysisError _ _ false => Rethrow
  | _ =>
      if (attempt =? maxAttempts - 1)%nat then Break
      else if negb (isRetryableError error) then Rethrow
      else Continue
  end.

(** The retry loop from iteration [attempt] on, with [remaining]
    iterations left before the loop condition fails. *)
Fixpoint retry_loop (imageUrls : list string) (remaining attempt : nat)
  (lastError : option Thrown) : list Event * result Thrown VisionAnalysis :=
  match remaining with
  | O => ([], Err (exhausted lastError))
  | S remaining' =>
      let steps := (delay_before attempt ++ [Create attempt imageUrls])%list in
      match attempt_body attempt with
      | Ok data => (steps, Ok data)
      | Err error =>
          match catch_block attempt error with
          | Rethrow => (steps, Err error)
          | Break => (steps, Err (exhausted (Some error)))
          | Continue =>
              let '(more, r) :=
                retry_loop imageUrls remaining' (S attempt) (Some error) in
              ((steps ++ more)%list, r)
          end
      end
  end.

(** First URL of the list that [new URL] rejects. *)
Definition first_invalid_url (imageUrls : list string) : option string :=
  List.find (fun url => negb (bool_decide (is_Some (URL_pathname url)))) imageUrls.

(** [callVision(imageUrls)]: the steps taken and the value returned or
    thrown. *)
Definition callVision (imageUrls : list string)
  : list Event * result Thrown VisionAnalysis :=
  if negb (length imageUrls =? 3)%nat then
    ([], Err (VisionAnalysisError
                ("Expected exactly 3 image URLs, received "
                   ++ nat_to_string (length imageUrls)) None false))
  else
    match first_invalid_url imageUrls with
    | Some url =>
        ([], Err (VisionAnalysisError
                    ("Invalid image URL: " ++ String.substring 0 50 url ++ "...")
                    None false))
    | None => retry_loop imageUrls maxAttempts 0 None
    end.

(** Number of calls made to the external model. *)
Definition is_create (e : Event) : bool :=
  match e with
  | Create _ _ => true
  | Sleep _ => false
  end.

Definition attempts_made (trace : list Event) : nat :=
  length (List.filter is_create trace).

End VisionClient.

(** ** Summary mapper (lib/analysis/service.ts, mapVisionToSummary) *)

Inductive SkinTypeLabel : Type := dry | oily | combination | normal | sensitive.

Record AnalysisPoint : Type := mkAnalysisPoint {
  date : Z;
  acne : Z;
  dryness : Z;
  pigmentation : Z
}.

Module Summary.
Record t : Type := mk {
  user_id : string;
  skin_type : SkinTypeLabel;
  confidence : Q;
  primary_concern : string;
  updatedAt : Z;
  series : list AnalysisPoint;
  notes : list string;
  modelVersion : string;
  detected_traits : option (list SkinTrait)
}.
End Summary.

(** [severityMap[severity]] *)
Definition severityMap (s : Severity) : Z :=
  match s with
  | low => 25
  | moderate => 55
  | high => 85
  end.

(** [getTraitSeverity(traitId)] over a trait list; the same closure is
    written in the mapper and in the latest-analysis route. *)
Definition getTraitSeverity (ts : list SkinTrait) (traitId : string) : Z :=
  match List.find (fun t => String.eqb (id t) traitId) ts with
  | None => 0
  | Some trait => severityMap (severity trait)
  end.

(** [skinTypeMap[key]]: [None] is [undefined]. *)
Definition skinTypeMap (key : string) : option SkinTypeLabel :=
  if String.eqb key "Dry" then Some dry
  else if String.eqb key "Oily" then Some oily
  else if String.eqb key "Combination" then Some combination
  else if String.eqb key "Normal" then Some normal
  else if String.eqb key "Sensitive" then Some sensitive
  else None.

Definition mapVisionToSummary (userId : string) (visionResult : VisionAnalysis)
  (completedAt : Z) : Summary.t :=
  Summary.mk
    userId
    (default normal (skinTypeMap (skinType visionResult)))
    (confidence visionResult / 100)%Q
    (primaryConcern visionResult)
    completedAt
    [ mkAnalysisPoint completedAt
        (getTraitSeverity (traits visionResult) "acne")
        (getTraitSeverity (traits visionResult) "dryness")
        (getTraitSeverity (traits visionResult) "hyperpigmentation") ]
    (notes visionResult)
    (modelVersion visionResult)
    None.

(** ** Stored rows *)

Inductive AnalysisStatus : Type :=
| pending | uploading | screening | detecting | generating | complete | error.

Definition AnalysisStatus_eqb (a b : AnalysisStatus) : bool :=
  match a, b with
  | pending, pending | uploading, uploading | screening, screening
  | detecting, detecting | generating, generating | complete, complete
  | error, error => true
  | _, _ => false
  end.

(** A row of [skin_analyses]. *)
Module SkinAnalysis.
Record t : Type := mk {
  id : string;
  user_id : string;
  created_at : Z;
  completed_at : option Z;
  status : AnalysisStatus;
  detected_traits : list SkinTrait;
  confidence_score : option Q;
  image_ids : list string;
  error_message : option string
}.
End SkinAnalysis.

Inductive ImageAngle : Type := front | left_45 | right_45.

Definition ImageAngle_eqb (a b : ImageAngle) : bool :=
  match a, b with
  | front, front | left_45, left_45 | right_45, right_45 => true
  | _, _ => false
  end.

Definition angle_name (a : ImageAngle) : string :=
  match a with
  | front => "front"
  | left_45 => "left_45"
  | right_45 => "right_45"
  end.

(** A row of [uploaded_images]. *)
Module Image.
Record t : Type := mk {
  id : string;
  user_id : string;
  angle : ImageAngle;
  storage_url : string;
  created_at : Z;
  deleted_at : option Z
}.
End Image.

(** [ORDER BY key DESC LIMIT 1]: the first row, in table order, that no
    other row exceeds. *)
Fixpoint first_max {A : Type} (le : A -> A -> bool) (rows : list A) : option A :=
  match rows with
  | [] => None
  | x :: rest =>
      match first_max le rest with
      | None => Some x
      | Some y => if le y x then Some x else Some y
      end
  end.

(** Descending order on a nullable timestamp column puts NULL first. *)
Definition nullable_le (a b : option Z) : bool :=
  match a, b with
  | _, None => true
  | None, Some _ => false
  | Some x, Some y => x <=? y
  end.

(** ** Image utilities (lib/storage/imageUtils.ts) *)

Record ImageRetrievalError : Type := mkImageRetrievalError {
  ire_message : string;
  ire_code : string
}.

Record StorageEnv : Type := mkStorageEnv {
  uploaded_images : list Image.t;
  image_query_error : ImageAngle -> bool;             (* the select fails *)
  createSignedUrl : string -> result string string    (* error message or URL *)
}.

(** [s.split('/')] *)
Fixpoint split_slash_aux (s : string) (cur : string) : list string :=
  match s with
  | EmptyString => [cur]
  | String c rest =>
      if Ascii.eqb c "/"%char then cur :: split_slash_aux rest ""
      else split_slash_aux rest (cur ++ String c "")
  end.

Definition split_slash (s : string) : list string := split_slash_aux s "".

(** [parts.slice(parts.indexOf(x) + 1)], [None] when [indexOf] is -1. *)
Fixpoint after_first (x : string) (parts : list string) : option (list string) :=
  match parts with
  | [] => None
  | p :: rest => if String.eqb p x then Some rest else after_first x rest
  end.

Section ImageUtils.

Variable URL_pathname : string -> option string.
(** [STORAGE_BUCKETS.USER_PHOTOS], declared outside the sources at hand. *)
Variable USER_PHOTOS : string.
Variable senv : StorageEnv.

(** The query of [getUserImagesForAngles] for one angle. *)
Definition latest_image (userId : string) (a : ImageAngle) : option Image.t :=
  first_max (fun x y => Image.created_at x <=? Image.created_at y)
    (List.filter
       (fun r => String.eqb (Image.user_id r) userId
                 && ImageAngle_eqb (Image.angle r) a
                 && negb (bool_decide (is_Some (Image.deleted_at r))))
       (uploaded_images senv)).

Fixpoint getUserImagesForAngles (userId : string) (angles : list ImageAngle)
  : result ImageRetrievalError (list Image.t) :=
  match angles with
  | [] => Ok []
  | a :: rest =>
      match (if image_query_error senv a then None else latest_image userId a) with
      | None =>
          Err (mkImageRetrievalError
                 ("Missing required image for angle: " ++ angle_name a)
                 "missing_image")
      | Some data =>
          match getUserImagesForAngles userId rest with
          | Ok results => Ok (data :: results)
          | Err e => Err e
          end
      end
  end.

Definition getSignedUrl (storagePath : string)
  : result ImageRetrievalError string :=
  match createSignedUrl senv storagePath with
  | Ok (String c rest) => Ok (String c rest)
  | Ok "" =>
      Err (mkImageRetrievalError
             "Failed to create signed URL: Unknown error" "signed_url_failed")
  | Err m =>
      Err (mkImageRetrievalError
             ("Failed to create signed URL: "
                ++ (if String.eqb m "" then "Unknown error" else m))
             "signed_url_failed")
  end.

Definition extractStoragePath (storageUrl bucketName : string)
  : result ImageRetrievalError string :=
  let invalid :=
    Err (mkImageRetrievalError
           ("Invalid storage URL format: " ++ storageUrl) "invalid_storage_url") in
  match URL_pathname storageUrl with
  | None => invalid
  | Some pathname =>
      match after_first bucketName (split_slash pathname) with
      | None => invalid
      | Some parts =>
          match String.concat "/" parts with
          | "" => invalid
          | storagePath => Ok storagePath
          end
      end
  end.

(** The signing loop of [getSignedImageUrls]. *)
Fixpoint sign_rows (rows : list Image.t) : result ImageRetrievalError (list string) :=
  match rows with
  | [] => Ok []
  | row :: rest =>
      match extractStoragePath (Image.storage_url row) USER_PHOTOS with
      | Err e => Err e
      | Ok storagePath =>
          match getSignedUrl storagePath with
          | Err e => Err e
          | Ok signedUrl =>
              match sign_rows rest with
              | Ok urls => Ok (signedUrl :: urls)
              | Err e => Err e
              end
          end
      end
  end.

Definition requiredAngles : list ImageAngle := [front; left_45; right_45].

(** [getSignedImageUrls(supabase, userId)]: [(urls, imageIds)]. *)
Definition getSignedImageUrls (userId : string)
  : result ImageRetrievalError (list string * list string) :=
  match getUserImagesForAngles userId requiredAngles with
  | Err e => Err e
  | Ok rows =>
      match sign_rows rows with
      | Err e => Err e
      | Ok urls => Ok (urls, List.map Image.id rows)
      end
  end.

End ImageUtils.

(** ** Analysis service (lib/analysis/service.ts, startOpenAIVisionAnalysis) *)

Record AnalysisServiceError : Type := mkAnalysisServiceError {
  ase_message : string;
  ase_code : string;
  ase_userMessage : string
}.

(** Values that reach the [catch] of the service. *)
Inductive ServiceThrown : Type :=
| ThrownService (e : AnalysisServiceError)
| ThrownImage (e : ImageRetrievalError)
| ThrownVision (e : Thrown).

(** [error.message] in the [catch] (every thrown value is an [Error]). *)
Definition service_thrown_message (e : ServiceThrown) : string :=
  match e with
  | ThrownService s => ase_message s
  | ThrownImage i => ire_message i
  | ThrownVision v => thrown_message v
  end.

Record ServiceEnv : Type := mkServiceEnv {
  insert_outcome : result string (string * Z);  (* createError message, or the
                                                   new row's id and created_at *)
  update_ok : AnalysisStatus -> bool;           (* does the update that writes
                                                   this status succeed *)
  update_error_message : string;                (* updateError.message if not *)
  storage : StorageEnv;
  vision : VisionEnv;
  completion_clock : Z                          (* new Date() at step 5 *)
}.

(** The column sets the service writes with [.update(...)]. *)
Inductive Patch : Type :=
| PatchStatus (status : AnalysisStatus)
| PatchComplete (detected_traits : list SkinTrait) (confidence_score : Q)
    (image_ids : list string) (completed_at : Z)
| PatchError (error_message : string).

Definition patch_status (p : Patch) : AnalysisStatus :=
  match p with
  | PatchStatus s => s
  | PatchComplete _ _ _ _ => complete
  | PatchError _ => error
  end.

Definition apply_patch (p : Patch) (r : SkinAnalysis.t) : SkinAnalysis.t :=
  match p with
  | PatchStatus s =>
      SkinAnalysis.mk (SkinAnalysis.id r) (SkinAnalysis.user_id r) (SkinAnalysis.created_at r) (SkinAnalysis.completed_at r)
        s (SkinAnalysis.detected_traits r) (SkinAnalysis.confidence_score r) (SkinAnalysis.image_ids r)
        (SkinAnalysis.error_message r)
  | PatchComplete ts c ids completedAt =>
      SkinAnalysis.mk (SkinAnalysis.id r) (SkinAnalysis.user_id r) (SkinAnalysis.created_at r) (Some completedAt)
        complete ts (Some c) ids (SkinAnalysis.error_message r)
  | PatchError m =>
      SkinAnalysis.mk (SkinAnalysis.id r) (SkinAnalysis.user_id r) (SkinAnalysis.created_at r) (SkinAnalysis.completed_at r)
        error (SkinAnalysis.detected_traits r) (SkinAnalysis.confidence_score r) (SkinAnalysis.image_ids r)
        (Some m)
  end.

(** Writes to [skin_analyses] that took effect, in order. *)
Inductive Write : Type :=
| Insert (row : SkinAnalysis.t)
| Update (analysisId : string) (patch : Patch).   (* .update(patch).eq('id', _) *)

Definition apply_write (db : list SkinAnalysis.t) (w : Write) : list SkinAnalysis.t :=
  match w with
  | Insert row => (db ++ [row])%list
  | Update analysisId patch =>
      List.map
        (fun r => if String.eqb (SkinAnalysis.id r) analysisId then apply_patch patch r else r)
        db
  end.

Definition apply_writes (db : list SkinAnalysis.t) (ws : list Write) : list SkinAnalysis.t :=
  List.fold_left apply_write ws db.

(** Does the write store a completion timestamp. *)
Definition writes_completed_at (w : Write) : bool :=
  match w with
  | Update _ (PatchComplete _ _ _ _) => true
  | Insert row => bool_decide (is_Some (SkinAnalysis.completed_at row))
  | Update _ _ => false
  end.

(** The row the insert of step 1 adds; the columns the insert does not
    name take the table's defaults. *)
Definition new_row (analysisId userId : string) (createdAt : Z) : SkinAnalysis.t :=
  SkinAnalysis.mk analysisId userId createdAt None uploading [] None [] None.

(** The re-throw at the end of the [catch]. *)
Definition to_service_error (e : ServiceThrown) : AnalysisServiceError :=
  match e with
  | ThrownImage i =>
      mkAnalysisServiceError (ire_message i) "missing_images"
        "Please upload all three required images (front, left 45°, right 45°) before starting analysis."
  | ThrownVision (VisionAnalysisError m _ _) =>
      mkAnalysisServiceError m "vision_api_failed"
        "Our skin analysis service is temporarily unavailable. Please try again in a few moments."
  | ThrownService s => s
  | ThrownVision other =>
      mkAnalysisServiceError (thrown_message other) "unknown_error"
        "An unexpected error occurred. Please try again."
  end.

Section Service.

Variable JSON_parse : string -> option JSON.
Variable URL_pathname : string -> option string.
Variable USER_PHOTOS : string.

Variable env : ServiceEnv.

(** One [.update(patch).eq('id', analysisId)]: the write, if it took
    effect. *)
Definition try_update (analysisId : string) (patch : Patch) : list Write :=
  if update_ok env (patch_status patch) then [Update analysisId patch] else [].

(** Steps 2 to 6 of the [try] block, for the row [analysisId]. *)
Definition analysis_steps (userId analysisId : string)
  : list Write * list Event * result ServiceThrown Summary.t :=
  let w2 := try_update analysisId (PatchStatus screening) in
  match getSignedImageUrls URL_pathname USER_PHOTOS (storage env) userId with
  | Err e => (w2, [], Err (ThrownImage e))
  | Ok (urls, imageIds) =>
      let w3 := try_update analysisId (PatchStatus detecting) in
      let '(trace, outcome) :=
        callVision JSON_parse URL_pathname (vision env) urls in
      match outcome with
      | Err e => ((w2 ++ w3)%list, trace, Err (ThrownVision e))
      | Ok visionResult =>
          let w4 := try_update analysisId (PatchStatus generating) in
          let completedAt := completion_clock env in
          let w5 :=
            try_update analysisId
              (PatchComplete (traits visionResult) (confidence visionResult)
                 imageIds completedAt) in
          if update_ok env complete then
            ((w2 ++ w3 ++ w4 ++ w5)%list, trace,
             Ok (mapVisionToSummary userId visionResult completedAt))
          else
            ((w2 ++ w3 ++ w4 ++ w5)%list, trace,
             Err (ThrownService
                    (mkAnalysisServiceError
                       ("Failed to save analysis results: "
                          ++ update_error_message env)
                       "db_update_failed"
                       "Analysis completed but could not save results. Please try again.")))
      end
  end.

(** The update of the [catch] block, skipped when [analysisId] is falsy. *)
Definition error_update (analysisId : string) (e : ServiceThrown) : list Write :=
  if String.eqb analysisId "" then []
  else try_update analysisId (PatchError (service_thrown_message e)).

(** [startOpenAIVisionAnalysis(userId)]: the writes that took effect, the
    steps of the vision client, and the summary returned or the error
    thrown. *)
Definition startOpenAIVisionAnalysis (userId : string)
  : list Write * list Event * result AnalysisServiceError Summary.t :=
  match insert_outcome env with
  | Err m =>
      ([], [],
       Err (mkAnalysisServiceError
              ("Failed to create analysis record: " ++ m)
              "db_create_failed"
              "Could not start analysis. Please try again."))
  | Ok (analysisId, createdAt) =>
      let w1 := [Insert (new_row analysisId userId createdAt)] in
      match analysis_steps userId analysisId with
      | (ws, trace, Ok summary) => ((w1 ++ ws)%list, trace, Ok summary)
      | (ws, trace, Err e) =>
          ((w1 ++ ws ++ error_update analysisId e)%list, trace,
           Err (to_service_error e))
      end
  end.

End Service.

(** ** Routes *)

Inductive JsonBody : Type :=
| RateLimitBody (retryAfter : Z) (retryAfterHuman : string)
| ErrorBody (code message : string)
| NoData                                  (* { success: true, data: null } *)
| SummaryBody (summary : Summary.t).

(** Responses, named after the call that builds them. *)
Inductive Response : Type :=
| unauthorized (message : string)
| ok (summary : Summary.t)
| fail (statusCode : Z) (code message technicalMessage : string)
| json (statusCode : Z) (body : JsonBody).

Record PostEnv : Type := mkPostEnv {
  post_user : option string;       (* supabase.auth.getUser() *)
  clock_check : Z;                 (* Date.now() inside checkLimit *)
  clock_retry : Z;                 (* Date.now() inside getRetryAfter *)
  service : ServiceEnv
}.

Record ServerState : Type := mkServerState {
  limiter : RateLimiter;
  skin_analyses : list SkinAnalysis.t
}.

Record GetEnv : Type := mkGetEnv {
  get_user : option string;
  query_error : bool;
  OPENAI_VISION_MODEL : option string
}.

Section Routes.

Variable JSON_parse : string -> option JSON.
Variable URL_pathname : string -> option string.
Variable USER_PHOTOS : string.

(** [POST /api/analysis/start] *)
Definition POST (env : PostEnv) (st : ServerState)
  : ServerState * list Event * Response :=
  match post_user env with
  | None => (st, [], unauthorized "You must be logged in to start an analysis")
  | Some user =>
      let rateLimitKey := user in
      let '(allowed, rl) := checkLimit (clock_check env) rateLimitKey (limiter st) in
      if negb allowed then
        let retryAfterMs := getRetryAfter (clock_retry env) rateLimitKey rl in
        let retryAfterSeconds := ceil_div retryAfterMs 1000 in
        (mkServerState rl (skin_analyses st), [],
         json 429
           (RateLimitBody retryAfterSeconds
              (nat_to_string (Z.to_nat (ceil_div retryAfterSeconds 60))
                 ++ " minutes")))
      else
        match startOpenAIVisionAnalysis JSON_parse URL_pathname USER_PHOTOS
                (service env) user with
        | (ws, trace, Ok summary) =>
            (mkServerState rl (apply_writes (skin_analyses st) ws), trace,
             ok summary)
        | (ws, trace, Err e) =>
            let statusCode :=
              if String.eqb (ase_code e) "missing_images" then 400 else 500 in
            (mkServerState rl (apply_writes (skin_analyses st) ws), trace,
             fail statusCode (ase_code e) (ase_userMessage e) (ase_message e))
        end
  end.

(** The query of [GET /api/analysis/latest]. *)
Definition latest_complete (userId : string) (db : list SkinAnalysis.t) : option SkinAnalysis.t :=
  first_max (fun x y => nullable_le (SkinAnalysis.completed_at x) (SkinAnalysis.completed_at y))
    (List.filter
       (fun r => String.eqb (SkinAnalysis.user_id r) userId
                 && AnalysisStatus_eqb (SkinAnalysis.status r) complete)
       db).

(** [traits.some((t) => t.id === traitId && t.severity !== 'low')] *)
Definition has_trait (ts : list SkinTrait) (traitId : string) : bool :=
  existsb
    (fun t => String.eqb (id t) traitId
              && negb (match severity t with low => true | _ => false end))
    ts.

Definition inferSkinType (ts : list SkinTrait) : SkinTypeLabel :=
  let hasOiliness := has_trait ts "oiliness" in
  let hasDryness := has_trait ts "dryness" in
  let hasSensitivity := has_trait ts "sensitivity" in
  if hasOiliness && hasDryness then combination
  else if hasOiliness then oily
  else if hasDryness then dry
  else if hasSensitivity then sensitive
  else normal.

Definition severityOrder (s : Severity) : Z :=
  match s with
  | high => 3
  | moderate => 2
  | low => 1
  end.

(** [[...traits].sort(cmp)] with the route's comparator; the sort is
    stable. *)
Fixpoint insert_sorted (x : SkinTrait) (sorted : list SkinTrait) : list SkinTrait :=
  match sorted with
  | [] => [x]
  | y :: rest =>
      if severityOrder (severity y) - severityOrder (severity x) <=? 0
      then x :: y :: rest
      else y :: insert_sorted x rest
  end.

Definition sortTraits (ts : list SkinTrait) : list SkinTrait :=
  List.fold_right insert_sorted [] ts.

Definition latestPrimaryConcern (ts : list SkinTrait) : string :=
  match sortTraits ts with
  | [] => "No major concerns"
  | t :: _ => if String.eqb (name t) "" then "No major concerns" else name t
  end.

Definition latestNotes (ts : list SkinTrait) : list string :=
  let built :=
    firstn 4
      (List.map (fun t => name t ++ ": " ++ description t)
         (List.filter
            (fun t => negb (match severity t with low => true | _ => false end))
            ts)) in
  match built with
  | [] => ["Analysis complete. Check your routine recommendations."]
  | _ => built
  end.

(** The summary the route builds from a stored row. *)
Definition summaryOfRow (userId : string) (OPENAI_VISION_MODEL : option string)
  (analysis : SkinAnalysis.t) : Summary.t :=
  let ts := SkinAnalysis.detected_traits analysis in
  let stamp := default (SkinAnalysis.created_at analysis) (SkinAnalysis.completed_at analysis) in
  Summary.mk
    userId
    (inferSkinType ts)
    (default 0%Q (SkinAnalysis.confidence_score analysis) / 100)%Q
    (latestPrimaryConcern ts)
    stamp
    [ mkAnalysisPoint stamp
        (getTraitSeverity ts "acne")
        (getTraitSeverity ts "dryness")
        (getTraitSeverity ts "hyperpigmentation") ]
    (latestNotes ts)
    (match OPENAI_VISION_MODEL with
     | None | Some "" => "gpt-4o-mini"
     | Some m => m
     end)
    (Some ts).

(** [GET /api/analysis/latest]: the writes it issues against the table
    and the response. *)
Definition GET (env : GetEnv) (db : list SkinAnalysis.t) : list Write * Response :=
  match get_user env with
  | None => ([], json 401 (ErrorBody "unauthorized" "Unauthorized"))
  | Some user =>
      if query_error env then
        ([], json 500 (ErrorBody "db_error" "Failed to fetch analysis"))
      else
        match latest_complete user db with
        | None => ([], json 200 NoData)
        | Some analysis =>
            ([], json 200
                   (SummaryBody
                      (summaryOfRow user (OPENAI_VISION_MODEL env) analysis)))
        end
  end.

End Routes.

(** ** Vocabulary of the properties *)

(** What the mapper promises for one channel: [score] is the mapped
    severity of the first trait of [ts] whose id is [channel], and 0 when
    there is none. *)
Definition channel_score_spec (ts : list SkinTrait) (channel : string)
  (score : Z) : Prop :=
  ((forall t, In t ts -> id t <> channel) -> score = 0) /\
  (forall before t after,
      ts = (before ++ t :: after)%list ->
      id t = channel ->
      (forall u, In u before -> id u <> channel) ->
      (severity t = low -> score = 25) /\
      (severity t = moderate -> score = 55) /\
      (severity t = high -> score = 85)) /\
  In score [0; 25; 55; 85].

(** The HTTP statuses the client retries on. *)
Definition retryable_status (status : Z) : Prop :=
  status = 429 \/ 500 <= status < 600.

(** A [VisionAnalysisError] built with [retryable = false]. *)
Definition permanent (e : Thrown) : Prop :=
  exists message cause, e = VisionAnalysisError message cause false.

(** The error thrown on an empty reply. *)
Definition emptyResponse : Thrown :=
  VisionAnalysisError "OpenAI returned empty response" None true.

(** The error thrown when the reply does not pass the schema. *)
Definition schemaMismatch : Thrown :=
  VisionAnalysisError "OpenAI response does not match expected schema"
    (Some (OtherError "ZodError")) false.

(** Payloads the output contract must reject: an object that lacks one of
    the four required keys, or carries a confidence outside [0, 100], an
    empty trait array, or a skin type outside the five categories. *)
Definition rejected_fields (fields : list (string * JSON)) : Prop :=
  (exists key,
      In key ["skinType"; "confidence"; "primaryConcern"; "traits"] /\
      prop key fields = None) \/
  (exists q, prop "confidence" fields = Some (JNum q) /\ (q < 0 \/ 100 < q)%Q) \/
  prop "traits" fields = Some (JArr []) \/
  (exists s, prop "skinType" fields = Some (JStr s) /\ ~ In s skinTypes).

Definition rejected_payload (payload : JSON) : Prop :=
  match payload with
  | JObj fields => rejected_fields fields
  | _ => False
  end.

(** The status a write leaves in the rows it touches. *)
Definition write_status (w : Write) : AnalysisStatus :=
  match w with
  | Insert row => SkinAnalysis.status row
  | Update _ patch => patch_status patch
  end.

(** The claim on terminal timestamps, read on a table: every row in a
    terminal status carries a completion timestamp. *)
Definition terminal_rows_stamped (db : list SkinAnalysis.t) : Prop :=
  forall r,
    In r db ->
    SkinAnalysis.status r = complete \/ SkinAnalysis.status r = error ->
    SkinAnalysis.completed_at r <> None.

(** The patch of an update, if the update takes effect in [env]. *)
Definition kept_patch (env : ServiceEnv) (p : Patch) : list Patch :=
  if update_ok env (patch_status p) then [p] else [].

(** The patch of the [catch] block's update, if it is issued and takes
    effect. *)
Definition kept_error_patch (env : ServiceEnv) (analysisId : string)
  (e : ServiceThrown) : list Patch :=
  if String.eqb analysisId "" then []
  else kept_patch env (PatchError (service_thrown_message e)).

(** Is the patch the one of step 5. *)
Definition is_complete_patch (p : Patch) : bool :=
  match p with
  | PatchComplete _ _ _ _ => true
  | _ => false
  end.



(** [r'] was not completed after [r], in the order the latest-analysis
    query sorts by (a null timestamp sorts before every other). *)
Definition not_completed_after (r' r : SkinAnalysis.t) : Prop :=
  match SkinAnalysis.completed_at r', SkinAnalysis.completed_at r with
  | _, None => True
  | None, Some _ => False
  | Some t', Some t => t' <= t
  end.

(** A completed record of the owner. *)
Definition completed_for (userId : string) (r : SkinAnalysis.t) : Prop :=
  SkinAnalysis.user_id r = userId /\ SkinAnalysis.status r = complete.

(** Clock readings that strictly increase, starting after [t]. *)
Fixpoint increasing_after (t : Z) (times : list Z) : Prop :=
  match times with
  | [] => True
  | x :: rest => t < x /\ increasing_after x rest
  end.

(** What a limiter of capacity [cap] answers to [n] requests within one
    window: [cap] times yes, then no. *)
Definition window_answers (cap n : nat) : list bool :=
  (repeat true (Nat.min cap n) ++ repeat false (n - cap))%list.

(** The state of the shipped limiter for one owner: no bucket, or a bucket
    with a finite token count that was last refilled at [t] or before. *)
Definition shipped_state (rl : RateLimiter) (key : string) (t : Z) : Prop :=
  maxTokens rl = 3 /\ refillIntervalMs rl = 0 /\ tokensPerRefill rl = 3 /\
  (buckets rl !! key = None \/
   exists k lr, buckets rl !! key = Some (mkBucket (JsNum.Fin k) lr) /\ lr <= t).

(** The state of a limiter of capacity 3 with a positive refill interval,
    for one owner inside a window: a bucket refilled at [t0] with [k]
    tokens left. *)
Definition window_state (rl : RateLimiter) (key : string) (t0 : Z) (k : nat) : Prop :=
  maxTokens rl = 3 /\ 0 < refillIntervalMs rl /\ tokensPerRefill rl = 3 /\
  buckets rl !! key = Some (mkBucket (JsNum.Fin (Z.of_nat k)) t0).

(** ** A small concrete world on which the definitions are run *)

Module Fixture.

Definition trait (i n : string) (sev : string) (d : string) : JSON :=
  JObj [("id", JStr i); ("name", JStr n); ("severity", JStr sev);
        ("description", JStr d)].

(** The "Combination" case of the mapper's unit tests. *)
Definition combination_payload : JSON :=
  JObj [("skinType", JStr "Combination");
        ("confidence", JNum 88);
        ("primaryConcern", JStr "Mixed skin zones");
        ("traits",
         JArr [trait "oiliness" "Oiliness" "moderate" "Oily T-zone";
               trait "dryness" "Dryness" "low" "Dry cheeks"]);
        ("notes", JArr []);
        ("modelVersion", JStr "gpt-4o-mini")].

(** A reply with a skin type outside the five categories. *)
Definition superoily_payload : JSON :=
  JObj [("skinType", JStr "SuperOily");
        ("confidence", JNum 80);
        ("primaryConcern", JStr "oiliness");
        ("traits", JArr [trait "oiliness" "Oiliness" "high" "Very oily"]);
        ("notes", JArr []);
        ("modelVersion", JStr "gpt-4o-mini")].

(** Stand-in for [JSON.parse] on the two reply texts used below. *)
Definition JSON_parse (text : string) : option JSON :=
  if String.eqb text "<combination>" then Some combination_payload
  else if String.eqb text "<superoily>" then Some superoily_payload
  else None.

(** Stand-in for [new URL(s).pathname]: accepts [https://host/path]. *)
Definition URL_pathname (s : string) : option string :=
  if String.prefix "https://" s then
    let rest := String.substring 8 (String.length s - 8) s in
    match String.index 0 "/" rest with
    | Some i => Some (String.substring i (String.length rest - i) rest)
    | None => Some "/"
    end
  else None.

Definition USER_PHOTOS : string := "images".

Definition image (i : string) (a : ImageAngle) (created : Z) : Image.t :=
  Image.mk i "u1" a
    ("https://p.supabase.co/storage/v1/object/public/images/u1/" ++ i ++ ".jpg")
    created None.

Definition all_images : list Image.t :=
  [image "img-front" front 10; image "img-left" left_45 11;
   image "img-right" right_45 12].

(** The owner has no [left_45] image. *)
Definition images_without_left : list Image.t :=
  [image "img-front" front 10; image "img-right" right_45 12].

Definition storage_of (images : list Image.t) : StorageEnv :=
  mkStorageEnv images (fun _ => false)
    (fun path => Ok ("https://signed.example/" ++ path)).

Definition three_urls : list string :=
  ["https://signed.example/u1/img-front.jpg";
   "https://signed.example/u1/img-left.jpg";
   "https://signed.example/u1/img-right.jpg"].

(** Providers: one that answers [text] at once, one that always answers
    503, one that answers 503 and then an empty reply. *)
Definition replies (text : string) : VisionEnv :=
  mkVisionEnv (fun _ => CreateReturns (Some text)) (fun _ => 1 # 2).

Definition always_503 : VisionEnv :=
  mkVisionEnv
    (fun _ => CreateThrows (ProviderAPIError (Some 503) "Service Unavailable"))
    (fun _ => 1 # 2).

Definition empty_after_503 : VisionEnv :=
  mkVisionEnv
    (fun n => match n with
              | O => CreateThrows (ProviderAPIError (Some 503) "Service Unavailable")
              | _ => CreateReturns None
              end)
    (fun _ => 1 # 2).

Definition service_env (images : list Image.t) (v : VisionEnv) : ServiceEnv :=
  mkServiceEnv (Ok ("a1", 100)) (fun _ => true) "" (storage_of images) v 200.

Definition post_env (images : list Image.t) (v : VisionEnv) : PostEnv :=
  mkPostEnv (Some "u1") 1000 1000 (service_env images v).

Definition get_env : GetEnv := mkGetEnv (Some "u1") false None.

(** A full analysis of owner [u1] whose model reply is the "Combination"
    payload, started on an empty table. *)
Definition combination_run
  : list Write * list Event * result AnalysisServiceError Summary.t :=
  startOpenAIVisionAnalysis JSON_parse URL_pathname USER_PHOTOS
    (service_env all_images (replies "<combination>")) "u1".

End Fixture.

(** ** Vocabulary of the further properties *)

(** Limiter parameters under which the refill arithmetic stays finite: a
    capacity of at least 1, a refill amount that is not negative, and not
    both a zero interval and a zero refill amount. *)
Definition limiter_params_ok (rl : RateLimiter) : Prop :=
  1 <= maxTokens rl /\ 0 <= tokensPerRefill rl /\
  (refillIntervalMs rl <> 0 \/ 0 < tokensPerRefill rl).

(** A bucket holding a finite number of tokens between 0 and the
    capacity. *)
Definition bucket_ok (rl : RateLimiter) (b : Bucket) : Prop :=
  exists k, tokens b = JsNum.Fin k /\ 0 <= k <= maxTokens rl.

Definition limiter_ok (rl : RateLimiter) : Prop :=
  limiter_params_ok rl /\
  forall key b, buckets rl !! key = Some b -> bucket_ok rl b.

(** No bucket was refilled after the clock reading [now]. *)
Definition clock_ok (rl : RateLimiter) (now : Z) : Prop :=
  forall key b, buckets rl !! key = Some b -> lastRefill b <= now.

(** The JSON form of validated data: the object a model reply parses to
    when it carries exactly this analysis. *)
Definition severity_name (s : Severity) : string :=
  match s with
  | low => "low"
  | moderate => "moderate"
  | high => "high"
  end.

Definition trait_json (t : SkinTrait) : JSON :=
  JObj [("id", JStr (id t)); ("name", JStr (name t));
        ("severity", JStr (severity_name (severity t)));
        ("description", JStr (description t))].

Definition analysis_json (v : VisionAnalysis) : JSON :=
  JObj [("skinType", JStr (skinType v));
        ("confidence", JNum (confidence v));
        ("primaryConcern", JStr (primaryConcern v));
        ("traits", JArr (List.map trait_json (traits v)));
        ("notes", JArr (List.map JStr (notes v)));
        ("modelVersion", JStr (modelVersion v))].

(** The same object without the optional [notes] key. *)
Definition analysis_json_without_notes (v : VisionAnalysis) : JSON :=
  JObj [("skinType", JStr (skinType v));
        ("confidence", JNum (confidence v));
        ("primaryConcern", JStr (primaryConcern v));
        ("traits", JArr (List.map trait_json (traits v)));
        ("modelVersion", JStr (modelVersion v))].

(** What the output contract asks of a trait and of an analysis. *)
Definition trait_well_formed (t : SkinTrait) : Prop :=
  id t <> "" /\ name t <> "" /\ description t <> "".

Definition analysis_well_formed (v : VisionAnalysis) : Prop :=
  In (skinType v) skinTypes /\
  (0 <= confidence v)%Q /\ (confidence v <= 100)%Q /\
  primaryConcern v <> "" /\
  traits v <> [] /\
  Forall trait_well_formed (traits v) /\
  modelVersion v <> "".


(** [r] is the owner's most recent uploaded, non-deleted image for the
    angle [a]. *)
Definition latest_for (senv : StorageEnv) (userId : string) (a : ImageAngle)
  (r : Image.t) : Prop :=
  In r (uploaded_images senv) /\
  Image.user_id r = userId /\ Image.angle r = a /\ Image.deleted_at r = None /\
  forall r',
    In r' (uploaded_images senv) ->
    Image.user_id r' = userId -> Image.angle r' = a ->
    Image.deleted_at r' = None ->
    Image.created_at r' <= Image.created_at r.

(** The owner has an uploaded, non-deleted image for the angle. *)
Definition has_image_for (senv : StorageEnv) (userId : string) (a : ImageAngle) : Prop :=
  exists img,
    In img (uploaded_images senv) /\
    Image.user_id img = userId /\ Image.angle img = a /\
    Image.deleted_at img = None.

(** [url] is the signed URL of the stored image [row]. *)
Definition signed_for (URL_pathname : string -> option string)
  (USER_PHOTOS : string) (senv : StorageEnv) (row : Image.t) (url : string) : Prop :=
  url <> "" /\
  exists storagePath,
    extractStoragePath URL_pathname (Image.storage_url row) USER_PHOTOS
    = Ok storagePath /\
    createSignedUrl senv storagePath = Ok url.

(** No character of [s] is a slash. *)
Fixpoint no_slash (s : string) : Prop :=
  match s with
  | EmptyString => True
  | String c rest => c <> "/"%char /\ no_slash rest
  end.

(** Position of a status in the lifecycle of a record. *)
Definition lifecycle_rank (s : AnalysisStatus) : Z :=
  match s with
  | pending => 0
  | uploading => 1
  | screening => 2
  | detecting => 3
  | generating => 4
  | complete => 5
  | error => 6
  end.

(** The statuses a list of writes stores, in order. *)
Definition statuses_written (ws : list Write) : list AnalysisStatus :=
  List.map write_status ws.

(** * Properties *)

(** ** Summary mapper *)

Lemma severityMap_values (s : Severity) :
  severityMap s = 25 \/ severityMap s = 55 \/ severityMap s = 85.
Proof. destruct s; simpl; auto. Qed.

Lemma getTraitSeverity_absent (ts : list SkinTrait) (traitId : string) :
  (forall t, In t ts -> id t <> traitId) -> getTraitSeverity ts traitId = 0.
Proof.
  intros Habs. unfold getTraitSeverity.
  destruct (List.find _ ts) as [t|] eqn:Hfind; [|reflexivity].
  apply List.find_some in Hfind as [Hin Heq].
  apply String.eqb_eq in Heq. exfalso. exact (Habs t Hin Heq).
Qed.

Lemma getTraitSeverity_first (before after : list SkinTrait) (t : SkinTrait)
  (traitId : string) :
  id t = traitId ->
  (forall u, In u before -> id u <> traitId) ->
  getTraitSeverity (before ++ t :: after) traitId = severityMap (severity t).
Proof.
  intros Hid Hbefore. unfold getTraitSeverity.
  induction before as [|u before IH]; simpl.
  - apply String.eqb_eq in Hid. rewrite Hid. reflexivity.
  - destruct (String.eqb (id u) traitId) eqn:Hu.
    + apply String.eqb_eq in Hu. exfalso. apply (Hbefore u); simpl; auto.
    + apply IH. intros v Hv. apply Hbefore. simpl; auto.
Qed.

Lemma getTraitSeverity_range (ts : list SkinTrait) (traitId : string) :
  In (getTraitSeverity ts traitId) [0; 25; 55; 85].
Proof.
  unfold getTraitSeverity. destruct (List.find _ ts) as [t|]; simpl; auto.
  destruct (severity t); simpl; auto.
Qed.

Lemma getTraitSeverity_spec (ts : list SkinTrait) (channel : string) :
  channel_score_spec ts channel (getTraitSeverity ts channel).
Proof.
  split; [apply getTraitSeverity_absent|].
  split; [|apply getTraitSeverity_range].
  intros before t after Hts Hid Hbefore. subst ts.
  rewrite (getTraitSeverity_first before after t channel) by assumption.
  repeat split; intros Hsev; rewrite Hsev; reflexivity.
Qed.

(** C6: for every validated result, the mapper's single series point
    carries, for each of the channels acne, dryness and hyperpigmentation
    (reported as pigmentation), 25, 55 or 85 according to the severity
    (low, moderate, high) of the matching trait, exactly 0 when no trait has
    the channel's id, and never any other value. *)
Theorem C6_channel_scores (userId : string) (v : VisionAnalysis) (completedAt : Z) :
  exists point,
    Summary.series (mapVisionToSummary userId v completedAt) = [point] /\
    channel_score_spec (traits v) "acne" (acne point) /\
    channel_score_spec (traits v) "dryness" (dryness point) /\
    channel_score_spec (traits v) "hyperpigmentation" (pigmentation point).
Proof.
  eexists. split; [reflexivity|]. simpl.
  split; [apply getTraitSeverity_spec|].
  split; apply getTraitSeverity_spec.
Qed.

(** ** Backoff delay *)



(** ** Retry loop of the vision client *)

Lemma isRetryableError_spec (e : Thrown) :
  isRetryableError e = true <->
  exists status message, e = APIError (Some status) message /\ retryable_status status.
Proof.
  unfold retryable_status. split.
  - destruct e as [[status|] message| |]; simpl; try discriminate.
    intros H. exists status, message. split; [reflexivity|].
    apply orb_true_iff in H as [H|H].
    + left. lia.
    + right. apply andb_true_iff in H. lia.
  - intros (status & message & -> & H). simpl.
    apply orb_true_iff. destruct H as [->|H]; [left; reflexivity|right].
    apply andb_true_iff. lia.
Qed.

Lemma permanent_not_retryable (e : Thrown) :
  permanent e -> isRetryableError e = false.
Proof. intros (m & c & ->). reflexivity. Qed.

(** The [catch] block, case by case. *)
Lemma catch_block_cases (attempt : nat) (e : Thrown) :
  (catch_block attempt e = Rethrow /\
   (permanent e \/
    (attempt <> (maxAttempts - 1)%nat /\ isRetryableError e = false))) \/
  (catch_block attempt e = Break /\
   attempt = (maxAttempts - 1)%nat /\ ~ permanent e) \/
  (catch_block attempt e = Continue /\
   attempt <> (maxAttempts - 1)%nat /\ isRetryableError e = true /\ ~ permanent e).
Proof.
  assert (Hgen :
    ~ permanent e ->
    catch_block attempt e =
      (if (attempt =? maxAttempts - 1)%nat then Break
       else if negb (isRetryableError e) then Rethrow else Continue) ->
    (catch_block attempt e = Rethrow /\
     (permanent e \/
      (attempt <> (maxAttempts - 1)%nat /\ isRetryableError e = false))) \/
    (catch_block attempt e = Break /\
     attempt = (maxAttempts - 1)%nat /\ ~ permanent e) \/
    (catch_block attempt e = Continue /\
     attempt <> (maxAttempts - 1)%nat /\ isRetryableError e = true /\ ~ permanent e)).
  { intros Hnp ->.
    destruct (Nat.eqb_spec attempt (maxAttempts - 1)) as [Hlast|Hlast].
    - right. left. auto.
    - destruct (isRetryableError e) eqn:Hr; simpl.
      + right. right. auto.
      + left. auto. }
  destruct e as [status message|message cause [|]|message].
  - apply Hgen; [intros (m & c & H); discriminate|reflexivity].
  - apply Hgen; [intros (m & c & H); discriminate|reflexivity].
  - left. split; [reflexivity|]. left. exists message, cause. reflexivity.
  - apply Hgen; [intros (m & c & H); discriminate|reflexivity].
Qed.

Lemma catch_block_Continue (attempt : nat) (e : Thrown) :
  catch_block attempt e = Continue ->
  attempt <> (maxAttempts - 1)%nat /\ isRetryableError e = true.
Proof.
  intros H.
  destruct (catch_block_cases attempt e) as [[H' _]|[[H' _]|[_ [H1 [H2 _]]]]];
    [congruence|congruence|auto].
Qed.

Lemma catch_block_Break (attempt : nat) (e : Thrown) :
  catch_block attempt e = Break ->
  attempt = (maxAttempts - 1)%nat /\ ~ permanent e.
Proof.
  intros H.
  destruct (catch_block_cases attempt e) as [[H' _]|[[_ H']|[H' _]]];
    [congruence|auto|congruence].
Qed.

Lemma catch_block_Rethrow (attempt : nat) (e : Thrown) :
  catch_block attempt e = Rethrow ->
  permanent e \/ (attempt <> (maxAttempts - 1)%nat /\ isRetryableError e = false).
Proof.
  intros H.
  destruct (catch_block_cases attempt e) as [[_ H']|[[H' _]|[H' _]]];
    [auto|congruence|congruence].
Qed.

Lemma catch_block_permanent (attempt : nat) (e : Thrown) :
  permanent e -> catch_block attempt e = Rethrow.
Proof. intros (m & c & ->). reflexivity. Qed.

Section RetryLoop.

Variable JSON_parse : string -> option JSON.
Variable URL_pathname : string -> option string.
Variable env : VisionEnv.

Abbreviation body := (attempt_body JSON_parse env).
Abbreviation loop := (retry_loop JSON_parse env).
Abbreviation call := (callVision JSON_parse URL_pathname env).

(** One iteration: either the loop ends there, with the steps and the
    result shown, or it goes on because the attempt failed with a
    retryable provider error before the last attempt. *)
Lemma retry_loop_step (urls : list string) (remaining attempt : nat)
  (lastError : option Thrown) :
  let steps := (delay_before env attempt ++ [Create attempt urls])%list in
  match body attempt with
  | Ok data => loop urls (S remaining) attempt lastError = (steps, Ok data)
  | Err e =>
      match catch_block attempt e with
      | Rethrow => loop urls (S remaining) attempt lastError = (steps, Err e)
      | Break =>
          loop urls (S remaining) attempt lastError
          = (steps, Err (exhausted (Some e)))
      | Continue =>
          loop urls (S remaining) attempt lastError
          = ((steps ++ fst (loop urls remaining (S attempt) (Some e)))%list,
             snd (loop urls remaining (S attempt) (Some e)))
      end
  end.
Proof.
  simpl. destruct (body attempt) as [data|e]; [reflexivity|].
  destruct (catch_block attempt e); try reflexivity.
  destruct (loop urls remaining (S attempt) (Some e)); reflexivity.
Qed.

Lemma attempt_body_retryable (attempt : nat) (e : Thrown) :
  body attempt = Err e ->
  isRetryableError e = true ->
  exists status message,
    create env attempt = CreateThrows (ProviderAPIError (Some status) message) /\
    retryable_status status.
Proof.
  unfold attempt_body. intros Hbody Hr.
  destruct (create env attempt) as [[status message|message]|content].
  - injection Hbody as <-.
    apply isRetryableError_spec in Hr as (st & m & Heq & Hst).
    simpl in Heq. injection Heq as -> ->. eauto.
  - injection Hbody as <-. discriminate.
  - destruct content as [[|c text]|]; try (injection Hbody as <-; discriminate).
    destruct (JSON_parse _) as [parsed|]; try (injection Hbody as <-; discriminate).
    destruct (VisionAnalysisSchema parsed); [discriminate|].
    injection Hbody as <-. discriminate.
Qed.

Lemma in_steps_create (urls us : list string) (attempt k : nat) :
  In (Create k us) (delay_before env attempt ++ [Create attempt urls]) ->
  k = attempt /\ us = urls.
Proof.
  intros H. apply in_app_or in H as [H|[H|[]]].
  - destruct attempt; simpl in H; [contradiction|].
    destruct H as [H|[]]. discriminate.
  - injection H as -> ->. auto.
Qed.


(** Tactic: unfold one iteration of the loop in hypothesis [H] about
    [fst]/[snd] of the loop, leaving one goal per way the iteration ends. *)
Ltac loop_step urls remaining attempt lastError :=
  let Hs := fresh "Hstep" in
  pose proof (retry_loop_step urls remaining attempt lastError) as Hs;
  cbv zeta in Hs;
  let Hb := fresh "Hbody" in
  let Hc := fresh "Hcatch" in
  destruct (body attempt) as [?data|?e] eqn:Hb;
  [|destruct (catch_block attempt e) eqn:Hc];
  rewrite Hs in *; clear Hs; cbn [fst snd] in *.

(** Every call of the loop is made with the caller's URLs, and the
    attempt numbers stay within the iterations left. *)
Lemma retry_loop_creates (urls us : list string) (remaining : nat) :
  forall attempt lastError k,
    In (Create k us) (fst (loop urls remaining attempt lastError)) ->
    us = urls /\ (attempt <= k < attempt + remaining)%nat.
Proof.
  induction remaining as [|remaining IH]; intros attempt lastError k H.
  - simpl in H. contradiction.
  - loop_step urls remaining attempt lastError;
      try (apply in_steps_create in H as [-> ->]; split; [reflexivity|lia]).
    apply in_app_or in H as [H|H].
    + apply in_steps_create in H as [-> ->]. split; [reflexivity|lia].
    + apply IH in H as [-> H]. split; [reflexivity|lia].
Qed.

(** An attempt after the first one of the loop follows a retryable
    provider error of the attempt before it. *)
Lemma retry_loop_retry_cause (urls us : list string) (remaining : nat) :
  forall attempt lastError k,
    In (Create (S k) us) (fst (loop urls remaining attempt lastError)) ->
    (attempt <= k)%nat ->
    exists status message,
      create env k = CreateThrows (ProviderAPIError (Some status) message) /\
      retryable_status status.
Proof.
  induction remaining as [|remaining IH]; intros attempt lastError k H Hle.
  - simpl in H. contradiction.
  - loop_step urls remaining attempt lastError;
      try (apply in_steps_create in H as [Hk _]; lia).
    apply in_app_or in H as [H|H].
    + apply in_steps_create in H as [Hk _]. lia.
    + destruct (Nat.eq_dec k attempt) as [->|Hne].
      * apply catch_block_Continue in Hcatch as [_ Hr].
        exact (attempt_body_retryable attempt e Hbody Hr).
      * apply (IH (S attempt) (Some e) k H). lia.
Qed.

Lemma attempts_made_app (l1 l2 : list Event) :
  attempts_made (l1 ++ l2) = (attempts_made l1 + attempts_made l2)%nat.
Proof. unfold attempts_made. rewrite List.filter_app, length_app. reflexivity. Qed.

Lemma attempts_made_steps (urls : list string) (attempt : nat) :
  attempts_made (delay_before env attempt ++ [Create attempt urls]) = 1%nat.
Proof. destruct attempt; reflexivity. Qed.

Lemma retry_loop_attempts (urls : list string) (remaining : nat) :
  forall attempt lastError,
    (attempts_made (fst (loop urls remaining attempt lastError))
     <= remaining)%nat.
Proof.
  induction remaining as [|remaining IH]; intros attempt lastError.
  - unfold attempts_made. simpl. lia.
  - loop_step urls remaining attempt lastError;
      try (rewrite attempts_made_steps; lia).
    rewrite attempts_made_app, attempts_made_steps.
    specialize (IH (S attempt) (Some e)). lia.
Qed.


(** The result of the loop is decided by the attempt that does not
    continue. *)
Lemma retry_loop_result_at (urls us : list string) (remaining : nat) :
  forall attempt lastError k,
    In (Create k us) (fst (loop urls remaining attempt lastError)) ->
    match body k with
    | Ok data => snd (loop urls remaining attempt lastError) = Ok data
    | Err e =>
        match catch_block k e with
        | Rethrow => snd (loop urls remaining attempt lastError) = Err e
        | Break =>
            snd (loop urls remaining attempt lastError)
            = Err (exhausted (Some e))
        | Continue => True
        end
    end.
Proof.
  induction remaining as [|remaining IH]; intros attempt lastError k H.
  - simpl in H. contradiction.
  - loop_step urls remaining attempt lastError;
      try (apply in_steps_create in H as [-> _];
           rewrite Hbody; try rewrite Hcatch; reflexivity).
    apply in_app_or in H as [H|H].
    + apply in_steps_create in H as [-> _]. rewrite Hbody, Hcatch. exact I.
    + exact (IH (S attempt) (Some e) k H).
Qed.

(** The attempts made are consecutive, starting with the loop's first. *)
Lemma retry_loop_prefix (urls : list string) (remaining : nat) :
  forall attempt lastError k,
    In (Create k urls) (fst (loop urls remaining attempt lastError)) <->
    (attempt <= k
     < attempt + attempts_made (fst (loop urls remaining attempt lastError)))%nat.
Proof.
  assert (Hsteps : forall attempt k,
    In (Create k urls) (delay_before env attempt ++ [Create attempt urls]) <->
    (attempt <= k < attempt + 1)%nat).
  { intros attempt k. split.
    - intros H. apply in_steps_create in H as [-> _]. lia.
    - intros H. assert (k = attempt) as -> by lia.
      apply in_or_app. right. left. reflexivity. }
  induction remaining as [|remaining IH]; intros attempt lastError k.
  - unfold attempts_made. simpl. split; [contradiction|lia].
  - loop_step urls remaining attempt lastError;
      try (rewrite attempts_made_steps; apply Hsteps).
    rewrite attempts_made_app, attempts_made_steps, in_app_iff, Hsteps.
    rewrite (IH (S attempt) (Some e) k). lia.
Qed.

(** [callVision] either throws a permanent error before the loop, with
    no step taken, or is the loop from attempt 0. *)
Lemma callVision_cases (urls : list string) :
  (exists e, call urls = ([], Err e) /\ permanent e /\
             (length urls <> 3%nat \/ first_invalid_url URL_pathname urls <> None)) \/
  (length urls = 3%nat /\ first_invalid_url URL_pathname urls = None /\
   call urls = loop urls maxAttempts 0 None).
Proof.
  unfold callVision.
  destruct (Nat.eqb_spec (length urls) 3) as [Hlen|Hlen]; simpl.
  - destruct (first_invalid_url URL_pathname urls) as [url|] eqn:Hurl.
    + left. eexists. split; [reflexivity|]. split; [|right; discriminate].
      unfold permanent. eauto.
    + right. auto.
  - left. eexists. split; [reflexivity|]. split; [|left; assumption].
    unfold permanent. eauto.
Qed.

Lemma callVision_attempts (urls : list string) :
  (attempts_made (fst (call urls)) <= maxAttempts)%nat.
Proof.
  destruct (callVision_cases urls) as [(e & -> & _)|(_ & _ & ->)].
  - simpl. unfold attempts_made. simpl. lia.
  - apply retry_loop_attempts.
Qed.

End RetryLoop.

(** C9: [callVision] makes a second or third attempt only after the attempt
    before it failed with a provider [APIError] whose status is 429 or lies
    in [500, 600); an attempt that fails in any other way is the last one
    and the call throws; in particular an empty reply, whose error is built
    with the retryable flag [true], is rejected by [isRetryableError] and is
    never followed by another attempt. *)
Theorem C9_retry_only_on_transient (JSON_parse : string -> option JSON)
  (URL_pathname : string -> option string) (env : VisionEnv)
  (urls : list string) :
  let trace := fst (callVision JSON_parse URL_pathname env urls) in
  let outcome := snd (callVision JSON_parse URL_pathname env urls) in
  (forall k us,
      In (Create (S k) us) trace ->
      exists status message,
        create env k = CreateThrows (ProviderAPIError (Some status) message) /\
        retryable_status status) /\
  (forall k us e,
      In (Create k us) trace ->
      attempt_body JSON_parse env k = Err e ->
      isRetryableError e = false ->
      (forall us', ~ In (Create (S k) us') trace) /\
      attempts_made trace = S k /\
      (outcome = Err e \/ outcome = Err (exhausted (Some e)))) /\
  (forall k us,
      In (Create k us) trace ->
      create env k = CreateReturns None \/ create env k = CreateReturns (Some "") ->
      attempt_body JSON_parse env k = Err emptyResponse /\
      isRetryableError emptyResponse = false /\
      (forall us', ~ In (Create (S k) us') trace) /\
      attempts_made trace = S k /\
      (k <> 2%nat -> outcome = Err emptyResponse) /\
      (k = 2%nat -> outcome = Err (exhausted (Some emptyResponse)))).
Proof.
  cbv zeta.
  destruct (callVision_cases JSON_parse URL_pathname env urls)
    as [(e0 & Hcall & _)|(Hlen & Hurl & Hcall)]; rewrite Hcall; cbn [fst snd].
  { split; [|split]; intros; contradiction. }
  assert (Hcause : forall k us,
    In (Create (S k) us) (fst (retry_loop JSON_parse env urls maxAttempts 0 None)) ->
    exists status message,
      create env k = CreateThrows (ProviderAPIError (Some status) message) /\
      retryable_status status).
  { intros k us H.
    apply (retry_loop_retry_cause JSON_parse env urls us maxAttempts 0 None k H).
    lia. }
  assert (Hlast : forall k us e,
    In (Create k us) (fst (retry_loop JSON_parse env urls maxAttempts 0 None)) ->
    attempt_body JSON_parse env k = Err e ->
    isRetryableError e = false ->
    (forall us', ~ In (Create (S k) us')
                   (fst (retry_loop JSON_parse env urls maxAttempts 0 None))) /\
    attempts_made (fst (retry_loop JSON_parse env urls maxAttempts 0 None)) = S k).
  { intros k us e Hin Hbody Hnr.
    assert (Hno : forall us', ~ In (Create (S k) us')
                   (fst (retry_loop JSON_parse env urls maxAttempts 0 None))).
    { intros us' Hnext. apply Hcause in Hnext as (status & message & Hc & Hst).
      unfold attempt_body in Hbody. rewrite Hc in Hbody.
      injection Hbody as <-.
      assert (isRetryableError (APIError (Some status) message) = true)
        by (apply isRetryableError_spec; eauto).
      simpl in *. congruence. }
    split; [exact Hno|].
    pose proof (retry_loop_creates JSON_parse env urls us maxAttempts 0 None k Hin)
      as [-> _].
    apply (retry_loop_prefix JSON_parse env urls maxAttempts 0 None k) in Hin.
    specialize (Hno urls).
    rewrite (retry_loop_prefix JSON_parse env urls maxAttempts 0 None (S k)) in Hno.
    lia. }
  split; [exact Hcause|]. split.
  - intros k us e Hin Hbody Hnr.
    destruct (Hlast k us e Hin Hbody Hnr) as [Hno Hmade].
    split; [exact Hno|]. split; [exact Hmade|].
    pose proof (retry_loop_result_at JSON_parse env urls us maxAttempts 0 None k Hin)
      as Hres.
    rewrite Hbody in Hres.
    destruct (catch_block k e) eqn:Hcatch; auto.
    apply catch_block_Continue in Hcatch as [_ Hr]. congruence.
  - intros k us Hin Hempty.
    assert (Hbody : attempt_body JSON_parse env k = Err emptyResponse).
    { unfold attempt_body. destruct Hempty as [->| ->]; reflexivity. }
    destruct (Hlast k us emptyResponse Hin Hbody eq_refl) as [Hno Hmade].
    repeat split; auto.
    + intros Hk.
      pose proof (retry_loop_result_at JSON_parse env urls us maxAttempts 0 None k Hin)
        as Hres.
      rewrite Hbody in Hres. unfold catch_block, emptyResponse in Hres.
      destruct (Nat.eqb_spec k (maxAttempts - 1)) as [Heq|Hne];
        [unfold maxAttempts in Heq; simpl in Heq; congruence|].
      exact Hres.
    + intros ->.
      pose proof (retry_loop_result_at JSON_parse env urls us maxAttempts 0 None 2 Hin)
        as Hres.
      rewrite Hbody in Hres. exact Hres.
Qed.

(** C3: for every input and every behaviour of the provider, [callVision]
    calls the external model at most 3 times; a wrong URL count throws
    before any call, and a first reply that is malformed JSON or violates
    the schema throws after that single call (no further attempt); when all
    three attempts fail with retryable provider errors the call throws the
    terminal "failed after 3 attempts" error, which the service reports as
    its service-unavailable failure. *)
Theorem C3_retry_bound (JSON_parse : string -> option JSON)
  (URL_pathname : string -> option string) (env : VisionEnv)
  (urls : list string) :
  let trace := fst (callVision JSON_parse URL_pathname env urls) in
  let outcome := snd (callVision JSON_parse URL_pathname env urls) in
  (attempts_made trace <= 3)%nat /\
  (length urls <> 3%nat ->
   attempts_made trace = 0%nat /\ exists e, outcome = Err e /\ permanent e) /\
  (forall text,
      length urls = 3%nat ->
      first_invalid_url URL_pathname urls = None ->
      create env 0%nat = CreateReturns (Some text) ->
      text <> "" ->
      JSON_parse text = None \/
      (exists payload,
          JSON_parse text = Some payload /\ VisionAnalysisSchema payload = None) ->
      attempts_made trace = 1%nat /\ exists e, outcome = Err e /\ permanent e) /\
  (length urls = 3%nat ->
   first_invalid_url URL_pathname urls = None ->
   (forall k, (k < 3)%nat ->
      exists status message,
        create env k = CreateThrows (ProviderAPIError (Some status) message) /\
        retryable_status status) ->
   attempts_made trace = 3%nat /\
   exists last,
     outcome = Err (exhausted (Some last)) /\
     ase_code (to_service_error (ThrownVision (exhausted (Some last))))
       = "vision_api_failed" /\
     ase_userMessage (to_service_error (ThrownVision (exhausted (Some last))))
       = "Our skin analysis service is temporarily unavailable. Please try again in a few moments.").
Proof.
  cbv zeta. split; [apply callVision_attempts|].
  destruct (callVision_cases JSON_parse URL_pathname env urls)
    as [(e & Hcall & Hperm & Hwhy)|(Hlen & Hurl & Hcall)]; rewrite Hcall.
  - split; [|split].
    + intros _. split; [reflexivity|]. exists e. auto.
    + intros text Hl Hu. destruct Hwhy; congruence.
    + intros Hl Hu. destruct Hwhy; congruence.
  - split; [intros Hne; congruence|]. split.
    + intros text _ _ Hcreate Htext Hbad.
      assert (Hbody : exists e, attempt_body JSON_parse env 0 = Err e /\ permanent e).
      { unfold attempt_body. rewrite Hcreate.
        destruct text as [|c text]; [congruence|].
        destruct Hbad as [->|(payload & -> & ->)];
          eexists; (split; [reflexivity|]); unfold permanent; eauto. }
      destruct Hbody as (e & Hbody & Hperm).
      pose proof (retry_loop_step JSON_parse env urls 2 0 None) as Hstep.
      cbv zeta in Hstep. rewrite Hbody in Hstep.
      rewrite (catch_block_permanent 0 e Hperm) in Hstep.
      unfold maxAttempts. rewrite Hstep. simpl.
      split; [reflexivity|]. exists e. auto.
    + intros _ _ Hall.
      destruct (Hall 0%nat ltac:(lia)) as (s0 & m0 & H0 & R0).
      destruct (Hall 1%nat ltac:(lia)) as (s1 & m1 & H1 & R1).
      destruct (Hall 2%nat ltac:(lia)) as (s2 & m2 & H2 & R2).
      assert (Hr : forall s m, retryable_status s ->
                isRetryableError (APIError (Some s) m) = true).
      { intros s m R. apply isRetryableError_spec. eauto. }
      unfold maxAttempts, retry_loop, attempt_body.
      rewrite H0, H1, H2. cbn [thrown_of_provider catch_block].
      unfold maxAttempts. cbn [Nat.eqb Nat.sub].
      rewrite (Hr s0 m0 R0), (Hr s1 m1 R1). cbn [negb fst snd].
      split; [reflexivity|].
      exists (APIError (Some s2) m2). repeat split.
Qed.



Lemma C3_retry_bound_witness :
  attempts_made
    (fst (callVision Fixture.JSON_parse Fixture.URL_pathname
            Fixture.always_503 Fixture.three_urls)) = 3%nat /\
  attempts_made
    (fst (callVision Fixture.JSON_parse Fixture.URL_pathname
            (Fixture.replies "<superoily>") Fixture.three_urls)) = 1%nat /\
  attempts_made
    (fst (callVision Fixture.JSON_parse Fixture.URL_pathname
            Fixture.always_503 [])) = 0%nat.
Proof.
  split; [|split].
  - apply (C3_retry_bound Fixture.JSON_parse Fixture.URL_pathname
             Fixture.always_503 Fixture.three_urls).
    + reflexivity.
    + reflexivity.
    + intros k _. exists 503, "Service Unavailable".
      split; [reflexivity|]. right. lia.
  - apply (C3_retry_bound Fixture.JSON_parse Fixture.URL_pathname
             (Fixture.replies "<superoily>") Fixture.three_urls)
      with (text := "<superoily>").
    + reflexivity.
    + reflexivity.
    + reflexivity.
    + discriminate.
    + right. exists Fixture.superoily_payload. split; reflexivity.
  - apply (C3_retry_bound Fixture.JSON_parse Fixture.URL_pathname
             Fixture.always_503 []).
    simpl. discriminate.
Defined.

Lemma C9_retry_only_on_transient_witness :
  (exists status message,
      create Fixture.always_503 0%nat
      = CreateThrows (ProviderAPIError (Some status) message) /\
      retryable_status status) /\
  attempts_made
    (fst (callVision Fixture.JSON_parse Fixture.URL_pathname
            (Fixture.replies "<superoily>") Fixture.three_urls)) = 1%nat /\
  attempts_made
    (fst (callVision Fixture.JSON_parse Fixture.URL_pathname
            Fixture.empty_after_503 Fixture.three_urls)) = 2%nat /\
  snd (callVision Fixture.JSON_parse Fixture.URL_pathname
         Fixture.empty_after_503 Fixture.three_urls) = Err emptyResponse.
Proof.
  split; [|split].
  - destruct (C9_retry_only_on_transient Fixture.JSON_parse Fixture.URL_pathname
                Fixture.always_503 Fixture.three_urls) as (H & _).
    apply (H 0%nat Fixture.three_urls).
    vm_compute. right. right. left. reflexivity.
  - destruct (C9_retry_only_on_transient Fixture.JSON_parse Fixture.URL_pathname
                (Fixture.replies "<superoily>") Fixture.three_urls) as (_ & H & _).
    apply (H 0%nat Fixture.three_urls schemaMismatch).
    + left. reflexivity.
    + reflexivity.
    + reflexivity.
  - destruct (C9_retry_only_on_transient Fixture.JSON_parse Fixture.URL_pathname
                Fixture.empty_after_503 Fixture.three_urls) as (_ & _ & H).
    destruct (H 1%nat Fixture.three_urls) as (_ & _ & _ & Hmade & Hout & _).
    + vm_compute. auto.
    + left. reflexivity.
    + split; [exact Hmade|]. apply Hout. discriminate.
Defined.

(** ** Output contract *)

Lemma z_skinType_In (v : option JSON) (s : string) :
  z_skinType v = Some s -> v = Some (JStr s) /\ In s skinTypes.
Proof.
  destruct v as [[| | |s'| |]|]; try discriminate. unfold z_skinType.
  destruct (existsb (String.eqb s') skinTypes) eqn:Hex; [|discriminate].
  intros [= <-]. split; [reflexivity|].
  apply existsb_exists in Hex as (x & Hin & Heq).
  apply String.eqb_eq in Heq. subst x. exact Hin.
Qed.

Lemma z_confidence_range (v : option JSON) (q : Q) :
  z_confidence v = Some q -> v = Some (JNum q) /\ (0 <= q)%Q /\ (q <= 100)%Q.
Proof.
  destruct v as [[| |q'| | |]|]; try discriminate. unfold z_confidence.
  destruct (Qle_bool 0 q' && Qle_bool q' 100) eqn:Hr; [|discriminate].
  intros [= <-]. apply andb_true_iff in Hr as [H0 H1].
  apply Qle_bool_iff in H0, H1. auto.
Qed.

Lemma z_string_min1_Some (v : option JSON) (s : string) :
  z_string_min1 v = Some s -> v = Some (JStr s) /\ s <> "".
Proof.
  destruct v as [[| | |s'| |]|]; simpl; try discriminate.
  destruct s' as [|c rest]; [discriminate|].
  change (Some (String c rest) = Some s -> Some (JStr (String c rest)) = Some (JStr s) /\ s <> "").
  intros [= <-]. split; [reflexivity|discriminate].
Qed.

Lemma z_traits_nonempty (v : option JSON) (ts : list SkinTrait) :
  z_traits v = Some ts ->
  exists items, v = Some (JArr items) /\ items <> [] /\ ts <> [].
Proof.
  destruct v as [[| | | |items|]|]; simpl; try discriminate.
  destruct (mapM SkinTraitSchema items) as [ts'|] eqn:Hm; simpl; [|discriminate].
  destruct ts' as [|t ts']; simpl; [discriminate|].
  intros [= <-]. exists items. split; [reflexivity|]. split; [|discriminate].
  intros ->. simpl in Hm. discriminate.
Qed.

(** What a payload that passes the schema looks like. *)
Lemma VisionAnalysisSchema_accepts (payload : JSON) (v : VisionAnalysis) :
  VisionAnalysisSchema payload = Some v ->
  exists fields,
    payload = JObj fields /\
    prop "skinType" fields = Some (JStr (skinType v)) /\ In (skinType v) skinTypes /\
    prop "confidence" fields = Some (JNum (confidence v)) /\
    (0 <= confidence v)%Q /\ (confidence v <= 100)%Q /\
    prop "primaryConcern" fields = Some (JStr (primaryConcern v)) /\
    (exists items, prop "traits" fields = Some (JArr items) /\ items <> []) /\
    traits v <> [].
Proof.
  destruct payload as [| | | | |fields]; simpl; try discriminate.
  destruct (z_skinType _) as [st|] eqn:Hst; simpl; [|discriminate].
  destruct (z_confidence _) as [c|] eqn:Hc; simpl; [|discriminate].
  destruct (z_string_min1 (prop "primaryConcern" fields)) as [pc|] eqn:Hpc;
    simpl; [|discriminate].
  destruct (z_traits _) as [ts|] eqn:Hts; simpl; [|discriminate].
  destruct (z_notes _) as [ns|] eqn:Hns; simpl; [|discriminate].
  destruct (z_string_min1 (prop "modelVersion" fields)) as [mv|] eqn:Hmv;
    simpl; [|discriminate].
  intros [= <-]. simpl.
  apply z_skinType_In in Hst as [Hst1 Hst2].
  apply z_confidence_range in Hc as (Hc1 & Hc2 & Hc3).
  apply z_string_min1_Some in Hpc as [Hpc _].
  apply z_traits_nonempty in Hts as (items & Hi1 & Hi2 & Hi3).
  exists fields. repeat split; eauto.
Qed.

Lemma VisionAnalysisSchema_rejects (payload : JSON) :
  rejected_payload payload -> VisionAnalysisSchema payload = None.
Proof.
  intros Hrej.
  destruct (VisionAnalysisSchema payload) as [v|] eqn:Hv; [|reflexivity].
  exfalso.
  apply VisionAnalysisSchema_accepts in Hv
    as (fields & -> & Hst & Hin & Hc & Hc0 & Hc1 & Hpc & (items & Hts & Hne) & _).
  simpl in Hrej.
  destruct Hrej as [(key & Hkey & Hnone)|[(q & Hq & Hrange)|[Hempty|(s & Hs & Hnot)]]].
  - simpl in Hkey.
    destruct Hkey as [<-|[<-|[<-|[<-|[]]]]]; congruence.
  - rewrite Hc in Hq. injection Hq as <-.
    destruct Hrange as [Hlt|Hgt].
    + exact (Qlt_not_le _ _ Hlt Hc0).
    + exact (Qlt_not_le _ _ Hgt Hc1).
  - rewrite Hts in Hempty. injection Hempty as ->. contradiction.
  - rewrite Hst in Hs. injection Hs as <-. contradiction.
Qed.

(** ** Service runs *)

Lemma status_apply_patch (p : Patch) (r : SkinAnalysis.t) :
  SkinAnalysis.status (apply_patch p r) = patch_status p.
Proof. destruct p; reflexivity. Qed.

Lemma completed_at_apply_patch (p : Patch) (r : SkinAnalysis.t) :
  SkinAnalysis.completed_at (apply_patch p r) =
  match p with
  | PatchComplete _ _ _ completedAt => Some completedAt
  | _ => SkinAnalysis.completed_at r
  end.
Proof. destruct p; reflexivity. Qed.

Lemma id_apply_patch (p : Patch) (r : SkinAnalysis.t) :
  SkinAnalysis.id (apply_patch p r) = SkinAnalysis.id r.
Proof. destruct p; reflexivity. Qed.

(** Rows that are complete after writes that never write [complete] were
    there, unchanged, before. *)
Lemma apply_writes_no_complete (ws : list Write) :
  (forall w, In w ws -> write_status w <> complete) ->
  forall db r,
    In r (apply_writes db ws) -> SkinAnalysis.status r = complete -> In r db.
Proof.
  unfold apply_writes.
  induction ws as [|w ws IH]; intros Hws db r Hin Hst; [exact Hin|].
  simpl in Hin.
  apply IH in Hin; [|intros w' Hw'; apply Hws; right; exact Hw'|exact Hst].
  assert (Hw : write_status w <> complete) by (apply Hws; left; reflexivity).
  destruct w as [row|analysisId patch]; simpl in Hin, Hw.
  - apply in_app_or in Hin as [Hin|[<-|[]]]; [exact Hin|contradiction].
  - apply in_map_iff in Hin as (r0 & Heq & Hin0).
    destruct (String.eqb (SkinAnalysis.id r0) analysisId).
    + subst r. rewrite status_apply_patch in Hst. contradiction.
    + subst r. exact Hin0.
Qed.

Section ServiceFacts.

Variable JSON_parse : string -> option JSON.
Variable URL_pathname : string -> option string.
Variable USER_PHOTOS : string.
Variable env : ServiceEnv.

Abbreviation start := (startOpenAIVisionAnalysis JSON_parse URL_pathname USER_PHOTOS env).
Abbreviation images := (getSignedImageUrls URL_pathname USER_PHOTOS (storage env)).
Abbreviation vision_call := (callVision JSON_parse URL_pathname (vision env)).
Abbreviation upd := (try_update env).
Abbreviation error_upd := (error_update env).

(** The service, one line per way a run can go. *)
Lemma start_unfold (userId : string) :
  start userId =
  match insert_outcome env with
  | Err m =>
      ([], [],
       Err (mkAnalysisServiceError ("Failed to create analysis record: " ++ m)
              "db_create_failed" "Could not start analysis. Please try again."))
  | Ok (analysisId, createdAt) =>
      let w1 := [Insert (new_row analysisId userId createdAt)] in
      let w2 := upd analysisId (PatchStatus screening) in
      match images userId with
      | Err e =>
          ((w1 ++ w2 ++ error_upd analysisId (ThrownImage e))%list, [],
           Err (to_service_error (ThrownImage e)))
      | Ok (urls, imageIds) =>
          let w3 := upd analysisId (PatchStatus detecting) in
          match snd (vision_call urls) with
          | Err e =>
              ((w1 ++ (w2 ++ w3) ++ error_upd analysisId (ThrownVision e))%list,
               fst (vision_call urls),
               Err (to_service_error (ThrownVision e)))
          | Ok v =>
              let w4 := upd analysisId (PatchStatus generating) in
              let w5 :=
                upd analysisId
                  (PatchComplete (traits v) (confidence v) imageIds
                     (completion_clock env)) in
              if update_ok env complete then
                ((w1 ++ w2 ++ w3 ++ w4 ++ w5)%list, fst (vision_call urls),
                 Ok (mapVisionToSummary userId v (completion_clock env)))
              else
                let e :=
                  ThrownService
                    (mkAnalysisServiceError
                       ("Failed to save analysis results: "
                          ++ update_error_message env)
                       "db_update_failed"
                       "Analysis completed but could not save results. Please try again.") in
                ((w1 ++ (w2 ++ w3 ++ w4 ++ w5) ++ error_upd analysisId e)%list,
                 fst (vision_call urls),
                 Err (to_service_error e))
          end
      end
  end.
Proof.
  unfold startOpenAIVisionAnalysis, analysis_steps.
  destruct (insert_outcome env) as [[analysisId createdAt]|m]; [|reflexivity].
  destruct (images userId) as [[urls imageIds]|e]; [|reflexivity].
  destruct (vision_call urls) as [trace [v|e]]; cbn [fst snd]; [|reflexivity].
  destruct (update_ok env complete); reflexivity.
Qed.

Lemma upd_status (analysisId : string) (p : Patch) (w : Write) :
  In w (upd analysisId p) -> w = Update analysisId p /\ update_ok env (patch_status p) = true.
Proof.
  unfold try_update. destruct (update_ok env (patch_status p)); simpl.
  - intros [<-|[]]. auto.
  - contradiction.
Qed.

Lemma error_update_status (analysisId : string) (e : ServiceThrown) (w : Write) :
  In w (error_upd analysisId e) -> write_status w = error.
Proof.
  unfold error_update. destruct (String.eqb analysisId ""); [contradiction|].
  intros H. apply upd_status in H as [-> _]. reflexivity.
Qed.

(** A run that throws never writes the status [complete]. *)
Lemma start_Err_no_complete (userId : string) (e : AnalysisServiceError) :
  snd (start userId) = Err e ->
  forall w, In w (fst (fst (start userId))) -> write_status w <> complete.
Proof.
  rewrite start_unfold.
  destruct (insert_outcome env) as [[analysisId createdAt]|m]; [|intros _ w []].
  cbv zeta.
  assert (Hup : forall s w, s <> complete ->
            In w (upd analysisId (PatchStatus s)) -> write_status w <> complete).
  { intros s w Hs Hw. apply upd_status in Hw as [-> _]. exact Hs. }
  assert (Hins : forall w, In w [Insert (new_row analysisId userId createdAt)] ->
            write_status w <> complete).
  { intros w [<-|[]]. discriminate. }
  assert (Herr : forall x w, In w (error_upd analysisId x) ->
            write_status w <> complete).
  { intros x w Hw. rewrite (error_update_status analysisId x w Hw). discriminate. }
  destruct (images userId) as [[urls imageIds]|ie]; cbn [fst snd].
  - destruct (snd (vision_call urls)) as [v|ve]; cbn [fst snd].
    + destruct (update_ok env complete) eqn:Hok; cbn [fst snd]; [discriminate|].
      intros _ w Hw. rewrite !in_app_iff in Hw.
      destruct Hw as [Hw|[[Hw|[Hw|[Hw|Hw]]]|Hw]]; eauto; try (eapply Hup; [|eauto]; discriminate).
      apply upd_status in Hw as [_ Hw]. simpl in Hw. congruence.
    + intros _ w Hw. rewrite !in_app_iff in Hw.
      destruct Hw as [Hw|[[Hw|Hw]|Hw]]; eauto; eapply Hup; eauto; discriminate.
  - intros _ w Hw. rewrite !in_app_iff in Hw.
    destruct Hw as [Hw|[Hw|Hw]]; eauto. eapply Hup; eauto; discriminate.
Qed.

End ServiceFacts.

(** C4: a parsed payload that lacks one of skinType, confidence,
    primaryConcern, traits, or whose confidence is outside [0, 100], or whose
    trait array is empty, or whose skinType is not one of the five
    categories, fails schema validation; a call that receives it throws the
    schema-mismatch [VisionAnalysisError]; and the service invocation that
    made the call throws its [vision_api_failed] error without writing the
    status [complete]: every row that is complete afterwards was already
    there, unchanged, before. *)
Theorem C4_schema_rejection (JSON_parse : string -> option JSON)
  (URL_pathname : string -> option string) (USER_PHOTOS : string)
  (payload : JSON) :
  rejected_payload payload ->
  VisionAnalysisSchema payload = None /\
  (forall (venv : VisionEnv) (urls us : list string) (k : nat) (text : string),
      In (Create k us) (fst (callVision JSON_parse URL_pathname venv urls)) ->
      create venv k = CreateReturns (Some text) ->
      text <> "" ->
      JSON_parse text = Some payload ->
      snd (callVision JSON_parse URL_pathname venv urls) = Err schemaMismatch) /\
  (forall (senv : ServiceEnv) (userId : string) (db : list SkinAnalysis.t)
          (us : list string) (k : nat) (text : string),
      let run :=
        startOpenAIVisionAnalysis JSON_parse URL_pathname USER_PHOTOS senv userId in
      In (Create k us) (snd (fst run)) ->
      create (vision senv) k = CreateReturns (Some text) ->
      text <> "" ->
      JSON_parse text = Some payload ->
      (exists e,
          snd run = Err e /\ ase_code e = "vision_api_failed" /\
          ase_message e = "OpenAI response does not match expected schema") /\
      (forall w, In w (fst (fst run)) -> write_status w <> complete) /\
      (forall r,
          In r (apply_writes db (fst (fst run))) ->
          SkinAnalysis.status r = complete -> In r db)).
Proof.
  intros Hrej.
  pose proof (VisionAnalysisSchema_rejects payload Hrej) as Hnone.
  assert (Hcall :
    forall (venv : VisionEnv) (urls us : list string) (k : nat) (text : string),
      In (Create k us) (fst (callVision JSON_parse URL_pathname venv urls)) ->
      create venv k = CreateReturns (Some text) ->
      text <> "" ->
      JSON_parse text = Some payload ->
      snd (callVision JSON_parse URL_pathname venv urls) = Err schemaMismatch).
  { intros venv urls us k text Hin Hcreate Htext Hparse.
    destruct (callVision_cases JSON_parse URL_pathname venv urls)
      as [(e0 & Hc & _)|(_ & _ & Hc)]; rewrite Hc in *; [contradiction|].
    pose proof (retry_loop_result_at JSON_parse venv urls us maxAttempts 0 None k Hin)
      as Hres.
    assert (Hbody : attempt_body JSON_parse venv k = Err schemaMismatch).
    { unfold attempt_body. rewrite Hcreate.
      destruct text as [|c text]; [congruence|]. rewrite Hparse, Hnone. reflexivity. }
    rewrite Hbody in Hres. exact Hres. }
  split; [exact Hnone|]. split; [exact Hcall|].
  intros senv userId db us k text run Hin Hcreate Htext Hparse.
  assert (Hrun : exists e,
            snd run = Err e /\ ase_code e = "vision_api_failed" /\
            ase_message e = "OpenAI response does not match expected schema").
  { subst run. rewrite start_unfold in *.
    destruct (insert_outcome senv) as [[analysisId createdAt]|m];
      [|simpl in Hin; contradiction].
    cbv zeta in *.
    destruct (getSignedImageUrls URL_pathname USER_PHOTOS (storage senv) userId)
      as [[urls imageIds]|ie]; [|simpl in Hin; contradiction].
    assert (Hin' : In (Create k us)
                     (fst (callVision JSON_parse URL_pathname (vision senv) urls))).
    { destruct (snd (callVision JSON_parse URL_pathname (vision senv) urls));
        [destruct (update_ok senv complete)|]; exact Hin. }
    rewrite (Hcall (vision senv) urls us k text Hin' Hcreate Htext Hparse).
    eexists. split; [reflexivity|]. split; reflexivity. }
  split; [exact Hrun|].
  destruct Hrun as (e & He & _).
  pose proof (start_Err_no_complete JSON_parse URL_pathname USER_PHOTOS senv userId e He)
    as Hws.
  split; [exact Hws|].
  intros r. apply apply_writes_no_complete. exact Hws.
Qed.

Lemma C4_schema_rejection_witness :
  VisionAnalysisSchema Fixture.superoily_payload = None /\
  snd (callVision Fixture.JSON_parse Fixture.URL_pathname
         (Fixture.replies "<superoily>") Fixture.three_urls) = Err schemaMismatch /\
  (exists e,
      snd (startOpenAIVisionAnalysis Fixture.JSON_parse Fixture.URL_pathname
             Fixture.USER_PHOTOS
             (Fixture.service_env Fixture.all_images (Fixture.replies "<superoily>"))
             "u1") = Err e /\
      ase_code e = "vision_api_failed" /\
      ase_message e = "OpenAI response does not match expected schema").
Proof.
  assert (Hrej : rejected_payload Fixture.superoily_payload).
  { simpl. right. right. right. exists "SuperOily". split; [reflexivity|].
    simpl. intros [H|[H|[H|[H|[H|[]]]]]]; discriminate. }
  destruct (C4_schema_rejection Fixture.JSON_parse Fixture.URL_pathname
              Fixture.USER_PHOTOS Fixture.superoily_payload Hrej)
    as (Hnone & Hcall & Hservice).
  split; [exact Hnone|]. split.
  - apply (Hcall (Fixture.replies "<superoily>") Fixture.three_urls
             Fixture.three_urls 0%nat "<superoily>").
    + left. reflexivity.
    + reflexivity.
    + discriminate.
    + reflexivity.
  - apply (Hservice
             (Fixture.service_env Fixture.all_images (Fixture.replies "<superoily>"))
             "u1" [] Fixture.three_urls 0%nat "<superoily>").
    + vm_compute. left. reflexivity.
    + reflexivity.
    + discriminate.
    + reflexivity.
Defined.

(** ** Terminal timestamps *)

Lemma apply_writes_app (db : list SkinAnalysis.t) (ws1 ws2 : list Write) :
  apply_writes db (ws1 ++ ws2) = apply_writes (apply_writes db ws1) ws2.
Proof. unfold apply_writes. apply fold_left_app. Qed.

(** Updates by id on a table whose only row with that id is the last. *)
Lemma apply_updates_fresh (db : list SkinAnalysis.t) (ps : list Patch) :
  forall row,
    (forall r, In r db -> SkinAnalysis.id r <> SkinAnalysis.id row) ->
    apply_writes (db ++ [row]) (List.map (Update (SkinAnalysis.id row)) ps)
    = (db ++ [List.fold_left (fun r p => apply_patch p r) ps row])%list.
Proof.
  induction ps as [|p ps IH]; intros row Hfresh; [reflexivity|].
  unfold apply_writes in *. simpl.
  rewrite List.map_app. simpl. rewrite String.eqb_refl.
  assert (Hmap : List.map
            (fun r => if String.eqb (SkinAnalysis.id r) (SkinAnalysis.id row) then apply_patch p r else r)
            db = db).
  { clear IH. induction db as [|r db IHdb]; [reflexivity|]. simpl.
    destruct (String.eqb_spec (SkinAnalysis.id r) (SkinAnalysis.id row)) as [Heq|Hne].
    - exfalso. apply (Hfresh r); [left; reflexivity|exact Heq].
    - rewrite IHdb; [reflexivity|]. intros r' Hr'. apply Hfresh. right. exact Hr'. }
  rewrite Hmap.
  rewrite <- (id_apply_patch p row) at 1.
  rewrite (IH (apply_patch p row)); [reflexivity|].
  intros r Hr. rewrite id_apply_patch. apply Hfresh. exact Hr.
Qed.

Lemma fold_patches_id (ps : list Patch) :
  forall row, SkinAnalysis.id (List.fold_left (fun r p => apply_patch p r) ps row) = SkinAnalysis.id row.
Proof.
  induction ps as [|p ps IH]; intros row; [reflexivity|].
  simpl. rewrite IH. apply id_apply_patch.
Qed.

(** Patches other than the one of step 5 leave the timestamp alone. *)
Lemma fold_patches_completed_at (ps : list Patch) :
  forall row,
    (forall p, In p ps -> is_complete_patch p = false) ->
    SkinAnalysis.completed_at (List.fold_left (fun r p => apply_patch p r) ps row)
    = SkinAnalysis.completed_at row.
Proof.
  induction ps as [|p ps IH]; intros row Hps; [reflexivity|].
  simpl. rewrite IH by (intros q Hq; apply Hps; right; exact Hq).
  rewrite completed_at_apply_patch.
  specialize (Hps p (or_introl eq_refl)). destruct p; [reflexivity|discriminate|reflexivity].
Qed.

Lemma fold_patches_last (ps : list Patch) (p : Patch) (row : SkinAnalysis.t) :
  List.fold_left (fun r q => apply_patch q r) (ps ++ [p]) row
  = apply_patch p (List.fold_left (fun r q => apply_patch q r) ps row).
Proof. rewrite fold_left_app. reflexivity. Qed.

(** Rows complete after a run of writes whose completing updates all stamp
    [clk] were complete before or carry [clk]. *)
Lemma apply_writes_complete_stamped (clk : Z) (ws : list Write) :
  (forall w, In w ws -> write_status w = complete ->
     exists analysisId ts c ids, w = Update analysisId (PatchComplete ts c ids clk)) ->
  forall db0 db,
    (forall r, In r db -> SkinAnalysis.status r = complete ->
       In r db0 \/ SkinAnalysis.completed_at r = Some clk) ->
    forall r, In r (apply_writes db ws) -> SkinAnalysis.status r = complete ->
      In r db0 \/ SkinAnalysis.completed_at r = Some clk.
Proof.
  unfold apply_writes.
  induction ws as [|w ws IH]; intros Hws db0 db Hdb r Hin Hst; [exact (Hdb r Hin Hst)|].
  simpl in Hin.
  refine (IH _ db0 (apply_write db w) _ r Hin Hst).
  - intros w' Hw'. apply Hws. right. exact Hw'.
  - clear r Hin Hst. intros r Hin Hst.
    specialize (Hws w (or_introl eq_refl)).
    destruct w as [row|analysisId patch]; simpl in Hin, Hws.
    + apply in_app_or in Hin as [Hin|[<-|[]]]; [exact (Hdb r Hin Hst)|].
      destruct (Hws Hst) as (a & ts & c & ids & Habs). discriminate.
    + apply in_map_iff in Hin as (r0 & Heq & Hin0).
      destruct (String.eqb (SkinAnalysis.id r0) analysisId).
      * subst r. rewrite status_apply_patch in Hst.
        destruct (Hws Hst) as (a & ts & c & ids & Heq). injection Heq as _ ->.
        right. reflexivity.
      * subst r. exact (Hdb r0 Hin0 Hst).
Qed.

Section Timestamps.

Variable JSON_parse : string -> option JSON.
Variable URL_pathname : string -> option string.
Variable USER_PHOTOS : string.
Variable env : ServiceEnv.

Abbreviation run := (startOpenAIVisionAnalysis JSON_parse URL_pathname USER_PHOTOS env).

Lemma try_update_kept (analysisId : string) (p : Patch) :
  try_update env analysisId p = List.map (Update analysisId) (kept_patch env p).
Proof.
  unfold try_update, kept_patch. destruct (update_ok env (patch_status p)); reflexivity.
Qed.

Lemma error_update_kept (analysisId : string) (e : ServiceThrown) :
  error_update env analysisId e
  = List.map (Update analysisId) (kept_error_patch env analysisId e).
Proof.
  unfold error_update, kept_error_patch.
  destruct (String.eqb analysisId ""); [reflexivity|apply try_update_kept].
Qed.

Lemma kept_patch_In (p q : Patch) : In q (kept_patch env p) -> q = p.
Proof.
  unfold kept_patch. destruct (update_ok env (patch_status p)); simpl; [|contradiction].
  intros [<-|[]]. reflexivity.
Qed.

Lemma kept_error_patch_In (analysisId : string) (e : ServiceThrown) (q : Patch) :
  In q (kept_error_patch env analysisId e) ->
  q = PatchError (service_thrown_message e).
Proof.
  unfold kept_error_patch. destruct (String.eqb analysisId ""); [contradiction|].
  apply kept_patch_In.
Qed.

(** The writes of a run: the insert, then updates of the inserted row
    only; the completing patch is the last one of a run that returns and
    does not occur in a run that throws. *)
Lemma run_writes_shape (userId : string) :
  match insert_outcome env with
  | Err _ => fst (fst (run userId)) = [] /\ exists e, snd (run userId) = Err e
  | Ok (analysisId, createdAt) =>
      exists ps,
        fst (fst (run userId))
        = Insert (new_row analysisId userId createdAt)
            :: List.map (Update analysisId) ps /\
        match snd (run userId) with
        | Ok _ =>
            exists pre ts c ids,
              ps = (pre ++ [PatchComplete ts c ids (completion_clock env)])%list /\
              forall p, In p pre -> patch_status p <> complete
        | Err e =>
            (forall p, In p ps -> patch_status p <> complete) /\
            (update_ok env error = true -> analysisId <> "" ->
             exists pre m, ps = (pre ++ [PatchError m])%list)
        end
  end.
Proof.
  rewrite start_unfold.
  destruct (insert_outcome env) as [[analysisId createdAt]|m];
    [|split; [reflexivity|eauto]].
  cbv zeta. rewrite !try_update_kept.
  assert (Hst : forall st q, st <> complete ->
            In q (kept_patch env (PatchStatus st)) -> patch_status q <> complete).
  { intros st q Hne Hq. apply kept_patch_In in Hq as ->. exact Hne. }
  assert (Herr : forall x q, In q (kept_error_patch env analysisId x) ->
            patch_status q <> complete).
  { intros x q Hq. apply kept_error_patch_In in Hq as ->. discriminate. }
  assert (Hlast : forall x front,
            update_ok env error = true -> analysisId <> "" ->
            exists pre m,
              (front ++ kept_error_patch env analysisId x)%list
              = (pre ++ [PatchError m])%list).
  { intros x front Hok Hid. unfold kept_error_patch, kept_patch.
    destruct (String.eqb_spec analysisId "") as [Heq|_]; [contradiction|].
    simpl. rewrite Hok. eauto. }
  assert (Hkc : forall ts c ids t,
            kept_patch env (PatchComplete ts c ids t)
            = if update_ok env complete then [PatchComplete ts c ids t] else [])
    by reflexivity.
  destruct (getSignedImageUrls URL_pathname USER_PHOTOS (storage env) userId)
    as [[urls imageIds]|ie]; cbn [fst snd].
  - destruct (snd (callVision JSON_parse URL_pathname (vision env) urls))
      as [v|ve]; cbn [fst snd].
    + rewrite ?try_update_kept.
      destruct (update_ok env complete) eqn:Hok; cbn [fst snd].
      * eexists. split.
        { rewrite Hkc, ?Hok. rewrite <- !List.map_app. reflexivity. }
        exists (kept_patch env (PatchStatus screening)
                  ++ kept_patch env (PatchStatus detecting)
                  ++ kept_patch env (PatchStatus generating))%list.
        eexists _, _, _. split; [rewrite <- !app_assoc; reflexivity|].
        intros p Hp. rewrite !in_app_iff in Hp.
        destruct Hp as [Hp|[Hp|Hp]]; (eapply Hst; [|eassumption]; discriminate).
      * rewrite error_update_kept.
        eexists. split.
        { rewrite Hkc, ?Hok. simpl. rewrite app_nil_r.
          rewrite <- !List.map_app. reflexivity. }
        split.
        { intros p Hp. rewrite !in_app_iff in Hp.
          destruct Hp as [[Hp|[Hp|Hp]]|Hp];
            first [eapply Hst; [|eassumption]; discriminate|eapply Herr; eassumption]. }
        apply Hlast.
    + rewrite error_update_kept.
      eexists. split; [simpl; rewrite <- !List.map_app; reflexivity|].
      split.
      { intros p Hp. rewrite !in_app_iff in Hp.
        destruct Hp as [[Hp|Hp]|Hp];
          first [eapply Hst; [|eassumption]; discriminate|eapply Herr; eassumption]. }
      apply Hlast.
  - rewrite error_update_kept.
    eexists. split; [simpl; rewrite <- !List.map_app; reflexivity|].
    split.
    { intros p Hp. rewrite !in_app_iff in Hp.
      destruct Hp as [Hp|Hp];
        first [eapply Hst; [|eassumption]; discriminate|eapply Herr; eassumption]. }
    apply Hlast.
Qed.

Lemma not_complete_patch (p : Patch) :
  patch_status p <> complete -> is_complete_patch p = false.
Proof. destruct p; simpl; [reflexivity|contradiction|reflexivity]. Qed.

Lemma filter_stamping_updates (analysisId : string) (ps : list Patch) :
  List.filter writes_completed_at (List.map (Update analysisId) ps)
  = List.map (Update analysisId) (List.filter is_complete_patch ps).
Proof.
  induction ps as [|p ps IH]; [reflexivity|]. simpl.
  destruct p; simpl; rewrite IH; reflexivity.
Qed.

Lemma filter_no_complete_patch (ps : list Patch) :
  (forall p, In p ps -> patch_status p <> complete) ->
  List.filter is_complete_patch ps = [].
Proof.
  induction ps as [|p ps IH]; intros H; [reflexivity|]. simpl.
  rewrite (not_complete_patch p) by (apply H; left; reflexivity).
  apply IH. intros q Hq. apply H. right. exact Hq.
Qed.

End Timestamps.

(** C2 (as the code has it): a row that is complete after an invocation
    was complete before it or carries the invocation's completion timestamp;
    an invocation that returns stamps [completed_at] exactly once, in the
    update that writes the status [complete], and one that throws never
    stamps it; the error-path update writes the status and the message only,
    so the record a failed invocation created ends with a null
    [completed_at], in status [error] when that update takes effect. *)
Theorem C2_terminal_timestamp_amended (JSON_parse : string -> option JSON)
  (URL_pathname : string -> option string) (USER_PHOTOS : string)
  (env : ServiceEnv) (userId : string) (db : list SkinAnalysis.t) :
  let run :=
    startOpenAIVisionAnalysis JSON_parse URL_pathname USER_PHOTOS env userId in
  let ws := fst (fst run) in
  (forall r,
      In r (apply_writes db ws) -> SkinAnalysis.status r = complete ->
      In r db \/ SkinAnalysis.completed_at r = Some (completion_clock env)) /\
  length (List.filter writes_completed_at ws)
    = match snd run with Ok _ => 1%nat | Err _ => 0%nat end /\
  (forall w, In w ws ->
     (writes_completed_at w = true <-> write_status w = complete)) /\
  (forall analysisId createdAt e,
      insert_outcome env = Ok (analysisId, createdAt) ->
      (forall r, In r db -> SkinAnalysis.id r <> analysisId) ->
      snd run = Err e ->
      exists row,
        apply_writes db ws = (db ++ [row])%list /\
        SkinAnalysis.id row = analysisId /\
        SkinAnalysis.completed_at row = None /\
        (update_ok env error = true -> analysisId <> "" ->
         SkinAnalysis.status row = error)).
Proof.
  cbv zeta.
  pose proof (run_writes_shape JSON_parse URL_pathname USER_PHOTOS env userId) as Hshape.
  destruct (insert_outcome env) as [[analysisId createdAt]|m] eqn:Hins.
  2:{ destruct Hshape as [Hws (e & He)]. rewrite Hws, He. simpl.
      split; [intros r Hr _; left; exact Hr|]. split; [reflexivity|].
      split; [intros w []|]. intros a c e0 Habs. discriminate. }
  destruct Hshape as (ps & Hws & Hres). rewrite Hws.
  assert (Hstamp : forall w,
    In w (Insert (new_row analysisId userId createdAt)
            :: List.map (Update analysisId) ps) ->
    (writes_completed_at w = true <-> write_status w = complete) /\
    (write_status w = complete ->
     exists a ts c ids, w = Update a (PatchComplete ts c ids (completion_clock env)))).
  { intros w [<-|Hw].
    - simpl. split; [split; discriminate|discriminate].
    - apply in_map_iff in Hw as (p & <- & Hp).
      change (write_status (Update analysisId p)) with (patch_status p).
      replace (writes_completed_at (Update analysisId p))
        with (is_complete_patch p) by (destruct p; reflexivity).
      destruct (snd _) as [summary|e].
      + destruct Hres as (pre & ts & c & ids & -> & Hpre).
        apply in_app_or in Hp as [Hp|[<-|[]]].
        * pose proof (Hpre p Hp) as Hne.
          rewrite (not_complete_patch p Hne).
          split; [split; [discriminate|contradiction]|contradiction].
        * simpl. split; [tauto|]. intros _. eauto.
      + destruct Hres as [Hall _]. pose proof (Hall p Hp) as Hne.
        rewrite (not_complete_patch p Hne).
        split; [split; [discriminate|contradiction]|contradiction]. }
  split.
  { apply (apply_writes_complete_stamped (completion_clock env)).
    - intros w Hw. apply (Hstamp w Hw).
    - intros r Hr _. left. exact Hr. }
  split.
  { simpl. rewrite filter_stamping_updates, length_map.
    destruct (snd _) as [summary|e].
    - destruct Hres as (pre & ts & c & ids & -> & Hpre).
      rewrite List.filter_app, (filter_no_complete_patch pre Hpre). reflexivity.
    - destruct Hres as [Hall _]. rewrite (filter_no_complete_patch ps Hall).
      reflexivity. }
  split; [intros w Hw; apply (Hstamp w Hw)|].
  intros a c e [= <- <-] Hfresh He. rewrite He in Hres.
  destruct Hres as [Hall Hlast].
  exists (List.fold_left (fun r p => apply_patch p r) ps
            (new_row analysisId userId createdAt)).
  split.
  { change (Insert (new_row analysisId userId createdAt)
              :: List.map (Update analysisId) ps)
      with ([Insert (new_row analysisId userId createdAt)]
              ++ List.map (Update analysisId) ps)%list.
    rewrite apply_writes_app.
    change (apply_writes db [Insert (new_row analysisId userId createdAt)])
      with (db ++ [new_row analysisId userId createdAt])%list.
    apply (apply_updates_fresh db ps (new_row analysisId userId createdAt)).
    exact Hfresh. }
  split; [apply fold_patches_id|].
  split.
  { rewrite fold_patches_completed_at; [reflexivity|].
    intros p Hp. apply not_complete_patch. exact (Hall p Hp). }
  intros Hok Hid. destruct (Hlast Hok Hid) as (pre & msg & ->).
  rewrite fold_patches_last. apply status_apply_patch.
Qed.

Lemma C2_terminal_timestamp_amended_witness :
  exists row,
    apply_writes []
      (fst (fst (startOpenAIVisionAnalysis Fixture.JSON_parse Fixture.URL_pathname
                   Fixture.USER_PHOTOS
                   (Fixture.service_env Fixture.images_without_left
                      (Fixture.replies "<combination>")) "u1")))
    = ([] ++ [row])%list /\
    SkinAnalysis.id row = "a1" /\
    SkinAnalysis.completed_at row = None /\
    (update_ok (Fixture.service_env Fixture.images_without_left
                  (Fixture.replies "<combination>")) error = true ->
     "a1" <> "" -> SkinAnalysis.status row = error).
Proof.
  destruct (C2_terminal_timestamp_amended Fixture.JSON_parse Fixture.URL_pathname
              Fixture.USER_PHOTOS
              (Fixture.service_env Fixture.images_without_left
                 (Fixture.replies "<combination>")) "u1" [])
    as (_ & _ & _ & H).
  eapply (H "a1" 100).
  - reflexivity.
  - intros r [].
  - vm_compute. reflexivity.
Defined.

(** C2, as stated, fails on the error path: an invocation for an owner
    without a [left_45] image leaves its record in status [error] with a
    null [completed_at]. *)
Lemma C2_error_path_counterexample :
  ~ terminal_rows_stamped
      (apply_writes []
         (fst (fst (startOpenAIVisionAnalysis Fixture.JSON_parse
                      Fixture.URL_pathname Fixture.USER_PHOTOS
                      (Fixture.service_env Fixture.images_without_left
                         (Fixture.replies "<combination>")) "u1")))).
Proof.
  intros Hclaim.
  apply (Hclaim
           (SkinAnalysis.mk "a1" "u1" 100 None error [] None []
              (Some "Missing required image for angle: left_45"))).
  - vm_compute. left. reflexivity.
  - right. reflexivity.
  - reflexivity.
Qed.

(** ** Rate limit before image resolution *)


Lemma first_max_None {A : Type} (le : A -> A -> bool) (rows : list A) :
  first_max le rows = None <-> rows = [].
Proof.
  destruct rows as [|x rest]; simpl; [tauto|].
  split; [|discriminate].
  destruct (first_max le rest) as [y|]; [destruct (le y x)|]; discriminate.
Qed.






(** ** Latest analysis *)

Lemma first_max_spec {A : Type} (le : A -> A -> bool) :
  (forall a b, le a b = true \/ le b a = true) ->
  (forall a b c, le a b = true -> le b c = true -> le a c = true) ->
  forall rows x,
    first_max le rows = Some x ->
    In x rows /\ forall y, In y rows -> le y x = true.
Proof.
  intros Htotal Htrans. induction rows as [|r rest IH]; intros x Hx; [discriminate|].
  simpl in Hx.
  assert (Hrefl : forall a, le a a = true) by (intros a0; destruct (Htotal a0 a0); assumption).
  destruct (first_max le rest) as [y|] eqn:Hrest.
  - destruct (IH y eq_refl) as [Hy Hmax].
    destruct (le y r) eqn:Hyr; injection Hx as <-.
    + split; [left; reflexivity|]. intros z [<-|Hz]; [apply Hrefl|].
      apply (Htrans z y r); [apply Hmax; exact Hz|exact Hyr].
    + split; [right; exact Hy|]. intros z [<-|Hz]; [|apply Hmax; exact Hz].
      destruct (Htotal r y) as [H|H]; [exact H|congruence].
  - injection Hx as <-. apply first_max_None in Hrest. subst rest.
    split; [left; reflexivity|]. intros z [<-|[]]. apply Hrefl.
Qed.

Lemma nullable_le_total (a b : option Z) :
  nullable_le a b = true \/ nullable_le b a = true.
Proof.
  destruct a as [x|], b as [y|]; simpl; auto.
  destruct (Z.leb_spec x y); [left; reflexivity|right; apply Z.leb_le; lia].
Qed.

Lemma nullable_le_trans (a b c : option Z) :
  nullable_le a b = true -> nullable_le b c = true -> nullable_le a c = true.
Proof.
  destruct a as [x|], b as [y|], c as [z|]; simpl; try congruence.
  rewrite !Z.leb_le. lia.
Qed.

Lemma nullable_le_spec (r' r : SkinAnalysis.t) :
  nullable_le (SkinAnalysis.completed_at r') (SkinAnalysis.completed_at r) = true <->
  not_completed_after r' r.
Proof.
  unfold not_completed_after.
  destruct (SkinAnalysis.completed_at r') as [x|], (SkinAnalysis.completed_at r) as [y|]; simpl;
    try tauto; try (split; [discriminate|contradiction]).
  apply Z.leb_le.
Qed.

Lemma AnalysisStatus_eqb_eq (a b : AnalysisStatus) :
  AnalysisStatus_eqb a b = true <-> a = b.
Proof. destruct a, b; simpl; split; congruence. Qed.

Lemma latest_complete_spec (userId : string) (db : list SkinAnalysis.t) :
  match latest_complete userId db with
  | None => forall r, In r db -> ~ completed_for userId r
  | Some r =>
      In r db /\ completed_for userId r /\
      forall r', In r' db -> completed_for userId r' -> not_completed_after r' r
  end.
Proof.
  unfold latest_complete, completed_for.
  assert (Hfilter : forall r,
    In r (List.filter
            (fun r => String.eqb (SkinAnalysis.user_id r) userId
                      && AnalysisStatus_eqb (SkinAnalysis.status r) complete) db)
    <-> In r db /\ SkinAnalysis.user_id r = userId /\ SkinAnalysis.status r = complete).
  { intros r. rewrite List.filter_In, andb_true_iff, String.eqb_eq,
      AnalysisStatus_eqb_eq. tauto. }
  destruct (first_max _ _) as [r|] eqn:Hmax.
  - apply first_max_spec in Hmax as [Hin Hle].
    + apply Hfilter in Hin as (Hin & Hu & Hs).
      split; [exact Hin|]. split; [auto|].
      intros r' Hin' [Hu' Hs']. apply nullable_le_spec. apply Hle.
      apply Hfilter. auto.
    + intros x y. apply nullable_le_total.
    + intros x y z. apply nullable_le_trans.
  - apply first_max_None in Hmax. intros r Hin [Hu Hs].
    assert (Habs : In r []) by (rewrite <- Hmax; apply Hfilter; auto).
    contradiction.
Qed.

(** C8: the latest-analysis route issues no write; for an authenticated
    owner whose query succeeds it answers 200 with null data when the owner
    has no completed record, and otherwise 200 with the summary of one of
    the owner's records in status [complete] that no other such record was
    completed after. *)
Theorem C8_latest_projection (env : GetEnv) (db : list SkinAnalysis.t) :
  fst (GET env db) = [] /\
  forall user,
    get_user env = Some user ->
    query_error env = false ->
    ((forall r, In r db -> ~ completed_for user r) ->
     snd (GET env db) = json 200 NoData) /\
    ((exists r0, In r0 db /\ completed_for user r0) ->
     exists r,
       In r db /\ completed_for user r /\
       (forall r', In r' db -> completed_for user r' -> not_completed_after r' r) /\
       snd (GET env db)
       = json 200 (SummaryBody (summaryOfRow user (OPENAI_VISION_MODEL env) r))).
Proof.
  split.
  - unfold GET. destruct (get_user env); [|reflexivity].
    destruct (query_error env); [reflexivity|].
    destruct (latest_complete _ db); reflexivity.
  - intros user Huser Hquery. unfold GET. rewrite Huser, Hquery.
    pose proof (latest_complete_spec user db) as Hspec.
    destruct (latest_complete user db) as [r|]; cbn [snd].
    + split.
      * intros Hnone. destruct Hspec as (Hin & Hc & _). exfalso. exact (Hnone r Hin Hc).
      * intros _. exists r. destruct Hspec as (Hin & Hc & Hlast). auto.
    + split; [reflexivity|].
      intros (r0 & Hin & Hc). exfalso. exact (Hspec r0 Hin Hc).
Qed.

Lemma C8_latest_projection_witness :
  snd (GET Fixture.get_env []) = json 200 NoData /\
  exists r,
    In r (apply_writes [] (fst (fst Fixture.combination_run))) /\
    completed_for "u1" r /\
    snd (GET Fixture.get_env (apply_writes [] (fst (fst Fixture.combination_run))))
    = json 200
        (SummaryBody (summaryOfRow "u1" (OPENAI_VISION_MODEL Fixture.get_env) r)).
Proof.
  split.
  - destruct (C8_latest_projection Fixture.get_env []) as [_ H].
    destruct (H "u1" eq_refl eq_refl) as [Hnone _].
    apply Hnone. intros r [].
  - destruct (C8_latest_projection Fixture.get_env
                (apply_writes [] (fst (fst Fixture.combination_run)))) as [_ H].
    destruct (H "u1" eq_refl eq_refl) as [_ Hsome].
    destruct Hsome as (r & Hin & Hc & _ & Hresp).
    + eexists. split; [vm_compute; left; reflexivity|]. split; reflexivity.
    + exists r. auto.
Defined.

(** ** Start summary against latest summary *)

Lemma latestNotes_length (ts : list SkinTrait) :
  (length (latestNotes ts) <= 4)%nat.
Proof.
  unfold latestNotes.
  destruct (firstn 4 _) as [|n rest] eqn:Hf; [simpl; lia|].
  rewrite <- Hf. apply firstn_le_length.
Qed.

(** C10: there is a completed analysis on which the two routes disagree.
    The run of owner [u1] on the "Combination" reply returns a summary with
    skin type [combination] and the model's (empty) notes, while the latest
    route, reading the record that run stored, answers skin type [oily] and
    a note rebuilt from the one non-low trait. In general the latest route
    takes the skin type from the stored traits alone and its notes, at most
    4, from the traits' names and descriptions, whereas the mapper looks the
    model's skin type up in its five-entry table and passes the model's notes
    through. *)
Theorem C10_latest_differs_from_start :
  (exists started latest,
      snd Fixture.combination_run = Ok started /\
      snd (GET Fixture.get_env
             (apply_writes [] (fst (fst Fixture.combination_run))))
      = json 200 (SummaryBody latest) /\
      Summary.skin_type started = combination /\
      Summary.skin_type latest = oily /\
      Summary.notes started = [] /\
      Summary.notes latest = ["Oiliness: Oily T-zone"] /\
      started <> latest) /\
  (forall user model row,
      Summary.skin_type (summaryOfRow user model row)
      = inferSkinType (SkinAnalysis.detected_traits row) /\
      Summary.notes (summaryOfRow user model row)
      = latestNotes (SkinAnalysis.detected_traits row) /\
      (length (Summary.notes (summaryOfRow user model row)) <= 4)%nat) /\
  (forall user v completedAt,
      Summary.skin_type (mapVisionToSummary user v completedAt)
      = default normal (skinTypeMap (skinType v)) /\
      Summary.notes (mapVisionToSummary user v completedAt) = notes v).
Proof.
  split; [|split].
  - eexists. eexists.
    split; [vm_compute; reflexivity|].
    split; [vm_compute; reflexivity|].
    repeat split; try reflexivity. discriminate.
  - intros user model row. repeat split. apply latestNotes_length.
  - intros user v completedAt. split; reflexivity.
Qed.

(** ** Rate limiter *)

Lemma checkLimit_params (now : Z) (key : string) (rl : RateLimiter) :
  maxTokens (snd (checkLimit now key rl)) = maxTokens rl /\
  refillIntervalMs (snd (checkLimit now key rl)) = refillIntervalMs rl /\
  tokensPerRefill (snd (checkLimit now key rl)) = tokensPerRefill rl.
Proof.
  unfold checkLimit. destruct (buckets rl !! key) as [bucket|]; simpl; auto.
  destruct (JsNum.gt0 _); simpl; auto.
Qed.

Lemma checkLimit_run_interval (key : string) (times : list Z) :
  forall rl,
    refillIntervalMs (snd (checkLimit_run key times rl)) = refillIntervalMs rl.
Proof.
  induction times as [|now rest IH]; intros rl; [reflexivity|].
  simpl. pose proof (checkLimit_params now key rl) as (_ & P2 & _).
  destruct (checkLimit now key rl) as [allowed rl1].
  specialize (IH rl1). destruct (checkLimit_run key rest rl1) as [answers rl2].
  simpl in *. congruence.
Qed.

(** With a refill interval of 0 the retry-after of a bucket refilled at or
    before the clock reading is 0. *)
Lemma zero_interval_retry_after (rl : RateLimiter) (key : string)
  (bucket : Bucket) (now : Z) :
  refillIntervalMs rl = 0 ->
  buckets rl !! key = Some bucket ->
  lastRefill bucket <= now ->
  getRetryAfter now key rl = 0.
Proof.
  intros Hint Hb Hle. unfold getRetryAfter. rewrite Hb, Hint. lia.
Qed.

Lemma shipped_step (rl : RateLimiter) (key : string) (t now : Z) :
  shipped_state rl key t ->
  t < now ->
  fst (checkLimit now key rl) = true /\
  shipped_state (snd (checkLimit now key rl)) key now.
Proof.
  intros (Hmax & Hint & Hper & Hb) Hlt.
  pose proof (checkLimit_params now key rl) as (P1 & P2 & P3).
  unfold shipped_state. rewrite P1, P2, P3. clear P1 P2 P3.
  unfold checkLimit.
  destruct Hb as [Hb|(k & lr & Hb & Hle)]; rewrite Hb.
  - simpl. split; [reflexivity|].
    repeat split; try assumption. right.
    exists (maxTokens rl - 1), now. split; [apply lookup_insert_eq|lia].
  - assert (Hrefill : refill rl now (mkBucket (JsNum.Fin k) lr)
                      = mkBucket (JsNum.Fin 3) now).
    { unfold refill, JsNum.div_floor. rewrite Hint, Hmax, Hper. simpl.
      destruct (Z.ltb_spec 0 (now - lr)) as [_|Hle']; [reflexivity|lia]. }
    rewrite Hrefill. simpl. split; [reflexivity|].
    repeat split; try assumption. right.
    exists 2, now. split; [apply lookup_insert_eq|lia].
Qed.

(** The shipped limiter allows every request of an owner whose requests
    arrive at strictly increasing clock readings. *)
Lemma shipped_unlimited (key : string) (times : list Z) :
  forall rl t,
    shipped_state rl key t ->
    increasing_after t times ->
    fst (checkLimit_run key times rl) = repeat true (length times).
Proof.
  induction times as [|now rest IH]; intros rl t Hst Hinc; [reflexivity|].
  destruct Hinc as [Hlt Hinc]. simpl.
  destruct (shipped_step rl key t now Hst Hlt) as [Hallow Hnext].
  destruct (checkLimit now key rl) as [allowed rl1]. simpl in Hallow, Hnext.
  subst allowed.
  pose proof (IH rl1 now Hnext Hinc) as IH'.
  destruct (checkLimit_run key rest rl1) as [answers rl2]. simpl in *.
  f_equal. exact IH'.
Qed.

(** *** The limiter the comments describe *)

Lemma window_step (rl : RateLimiter) (key : string) (t0 now : Z) (k : nat) :
  window_state rl key t0 k ->
  t0 <= now < t0 + refillIntervalMs rl ->
  fst (checkLimit now key rl) = (0 <? k)%nat /\
  window_state (snd (checkLimit now key rl)) key t0 (k - 1).
Proof.
  intros (Hmax & Hint & Hper & Hb) Hnow.
  pose proof (checkLimit_params now key rl) as (P1 & P2 & P3).
  unfold window_state. rewrite P1, P2, P3. clear P1 P2 P3.
  unfold checkLimit. rewrite Hb.
  assert (Hrefill : refill rl now (mkBucket (JsNum.Fin (Z.of_nat k)) t0)
                    = mkBucket (JsNum.Fin (Z.of_nat k)) t0).
  { unfold refill, JsNum.div_floor. simpl.
    destruct (Z.eqb_spec (refillIntervalMs rl) 0) as [H0|_]; [lia|].
    rewrite Z.div_small by lia. reflexivity. }
  rewrite Hrefill. cbn [tokens lastRefill JsNum.gt0 JsNum.pred].
  destruct (Z.ltb_spec 0 (Z.of_nat k)) as [Hpos|Hzero]; cbn [fst snd with_buckets buckets].
  - split; [symmetry; apply Nat.ltb_lt; lia|].
    repeat split; try assumption.
    rewrite lookup_insert_eq. do 3 f_equal. lia.
  - assert (k = 0%nat) as -> by lia.
    split; [reflexivity|]. repeat split; try assumption. apply lookup_insert_eq.
Qed.

Lemma window_run (key : string) (t0 : Z) (times : list Z) :
  forall rl k,
    window_state rl key t0 k ->
    Forall (fun now => t0 <= now < t0 + refillIntervalMs rl) times ->
    fst (checkLimit_run key times rl) = window_answers k (length times) /\
    window_state (snd (checkLimit_run key times rl)) key t0 (k - length times).
Proof.
  induction times as [|now rest IH]; intros rl k Hst Hall.
  - simpl. unfold window_answers. rewrite Nat.min_0_r, Nat.sub_0_r. auto.
  - inversion Hall as [|? ? Hnow Hrest]; subst.
    destruct (window_step rl key t0 now k Hst Hnow) as [Hans Hnext].
    pose proof (checkLimit_params now key rl) as (_ & P2 & _).
    simpl. destruct (checkLimit now key rl) as [allowed rl1]. simpl in *.
    rewrite <- P2 in Hrest.
    destruct (IH rl1 (k - 1)%nat Hnext Hrest) as [IHans IHst].
    destruct (checkLimit_run key rest rl1) as [answers rl2]. simpl in *.
    split.
    + subst allowed answers. unfold window_answers.
      destruct k as [|k']; simpl; rewrite Nat.sub_0_r; reflexivity.
    + replace (k - S (length rest))%nat with (k - 1 - length rest)%nat by lia.
      exact IHst.
Qed.

Lemma window_retry_after (rl : RateLimiter) (key : string) (t0 now : Z) (k : nat) :
  window_state rl key t0 k ->
  now < t0 + refillIntervalMs rl ->
  0 < getRetryAfter now key rl /\ 0 < ceil_div (getRetryAfter now key rl) 1000.
Proof.
  intros (_ & _ & _ & Hb) Hnow.
  assert (Hpos : 0 < getRetryAfter now key rl).
  { unfold getRetryAfter. rewrite Hb. simpl. lia. }
  split; [exact Hpos|]. unfold ceil_div.
  assert (- getRetryAfter now key rl / 1000 < 0); [|lia].
  apply Z.div_lt_upper_bound; lia.
Qed.

(** With the window of the route's comments (3 per 3600000 ms) the
    limiter does what the claim says: of the requests an owner sends within
    one window the first 3 are allowed and the others denied, and within the
    window the retry-after it reports is positive. *)
Lemma documented_limiter_window (key : string) (t0 : Z) (times : list Z) :
  Forall (fun now => t0 <= now < t0 + 3600000) times ->
  fst (checkLimit_run key (t0 :: times) documentedLimiter)
  = window_answers 3 (S (length times)) /\
  forall now,
    now < t0 + 3600000 ->
    0 < getRetryAfter now key
          (snd (checkLimit_run key (t0 :: times) documentedLimiter)) /\
    0 < ceil_div
          (getRetryAfter now key
             (snd (checkLimit_run key (t0 :: times) documentedLimiter))) 1000.
Proof.
  intros Hall.
  assert (Hfirst : window_state (snd (checkLimit t0 key documentedLimiter)) key t0 2).
  { unfold window_state, checkLimit, documentedLimiter, newRateLimiter. simpl.
    rewrite lookup_empty. simpl. repeat split; try lia. apply lookup_insert_eq. }
  assert (Hallow : fst (checkLimit t0 key documentedLimiter) = true).
  { unfold checkLimit, documentedLimiter, newRateLimiter. simpl.
    rewrite lookup_empty. reflexivity. }
  assert (Hint : refillIntervalMs (snd (checkLimit t0 key documentedLimiter)) = 3600000).
  { destruct (checkLimit_params t0 key documentedLimiter) as (_ & -> & _). reflexivity. }
  simpl. destruct (checkLimit t0 key documentedLimiter) as [allowed rl1].
  simpl in *. subst allowed.
  rewrite <- Hint in Hall.
  destruct (window_run key t0 times rl1 2%nat Hfirst Hall) as [Hans Hst].
  pose proof (checkLimit_run_interval key times rl1) as Hint2.
  destruct (checkLimit_run key times rl1) as [answers rl2]. simpl in *.
  split.
  - subst answers. unfold window_answers. simpl.
    destruct (length times) as [|[|n]]; reflexivity.
  - intros now Hnow.
    apply (window_retry_after rl2 key t0 now _ Hst).
    rewrite Hint2, Hint. exact Hnow.
Qed.

(** *** The limiter as shipped *)

(** A denial of the shipped limiter carries a retry-after of 0 on a clock
    that does not run backwards. *)
Lemma shipped_denial_reports_zero (rl : RateLimiter) (key : string) (t now now' : Z) :
  shipped_state rl key t ->
  t <= now <= now' ->
  fst (checkLimit now key rl) = false ->
  getRetryAfter now' key (snd (checkLimit now key rl)) = 0 /\
  ceil_div (getRetryAfter now' key (snd (checkLimit now key rl))) 1000 = 0.
Proof.
  intros Hst Hclock Hdenied.
  assert (Hzero : getRetryAfter now' key (snd (checkLimit now key rl)) = 0).
  { destruct Hst as (Hmax & Hint & Hper & [Hb|(k & lr & Hb & Hle)]).
    - unfold checkLimit in Hdenied. rewrite Hb in Hdenied. discriminate.
    - destruct (Z.eq_dec lr now) as [->|Hne].
      + unfold checkLimit in *. rewrite Hb in *.
        assert (Hrefill : refill rl now (mkBucket (JsNum.Fin k) now)
                          = mkBucket (JsNum.Fin k) now).
        { unfold refill, JsNum.div_floor. rewrite Hint. simpl.
          rewrite Z.sub_diag. reflexivity. }
        rewrite Hrefill in *. cbn [tokens lastRefill] in *.
        destruct (JsNum.gt0 (JsNum.Fin k)); [discriminate|]. cbn [snd].
        apply (zero_interval_retry_after _ key (mkBucket (JsNum.Fin k) now));
          [exact Hint|apply lookup_insert_eq|simpl; lia].
      + assert (Hst' : shipped_state rl key lr).
        { repeat split; auto. right. exists k, lr. split; [exact Hb|lia]. }
        destruct (shipped_step rl key lr now Hst') as [Hallow _]; [lia|congruence]. }
  split; [exact Hzero|]. rewrite Hzero. reflexivity.
Qed.

(** C1 on the shipped instance [new RateLimiter(3, 0, 3)]: four requests
    of one owner one second apart are all allowed; when four arrive in the
    same millisecond the fourth is denied with a retry-after of 0, and the
    route answers 429 with [retryAfter] 0. The limiter of the route's
    comments denies the fourth of the requests one second apart. *)
Theorem C1_shipped_limiter_diverges :
  fst (checkLimit_run "u1" [1000; 2000; 3000; 4000] rateLimiter)
    = [true; true; true; true] /\
  fst (checkLimit_run "u1" [1000; 1000; 1000; 1000] rateLimiter)
    = [true; true; true; false] /\
  getRetryAfter 1000 "u1"
    (snd (checkLimit_run "u1" [1000; 1000; 1000; 1000] rateLimiter)) = 0 /\
  snd (POST Fixture.JSON_parse Fixture.URL_pathname Fixture.USER_PHOTOS
         (Fixture.post_env Fixture.all_images (Fixture.replies "<combination>"))
         (mkServerState
            (snd (checkLimit_run "u1" [1000; 1000; 1000] rateLimiter)) []))
    = json 429 (RateLimitBody 0 "0 minutes") /\
  fst (checkLimit_run "u1" [1000; 2000; 3000; 4000] documentedLimiter)
    = [true; true; true; false].
Proof.
  repeat split; vm_compute; reflexivity.
Qed.

(** * Further properties *)

(** ** Rate limiter: buckets *)

(** The answer of [checkLimit] and the bucket it leaves for the key, read
    off the key's bucket alone. *)
Lemma checkLimit_lookup (now : Z) (key : string) (rl : RateLimiter) :
  fst (checkLimit now key rl)
  = match buckets rl !! key with
    | None => true
    | Some b0 => JsNum.gt0 (tokens (refill rl now b0))
    end /\
  buckets (snd (checkLimit now key rl)) !! key
  = Some match buckets rl !! key with
         | None => mkBucket (JsNum.Fin (maxTokens rl - 1)) now
         | Some b0 =>
             if JsNum.gt0 (tokens (refill rl now b0))
             then mkBucket (JsNum.pred (tokens (refill rl now b0)))
                    (lastRefill (refill rl now b0))
             else refill rl now b0
         end.
Proof.
  unfold checkLimit. destruct (buckets rl !! key) as [b0|]; cbn [fst snd].
  - destruct (JsNum.gt0 (tokens (refill rl now b0))); cbn [fst snd with_buckets buckets];
      split; try reflexivity; apply lookup_insert_eq.
  - cbn [with_buckets buckets]. split; [reflexivity|apply lookup_insert_eq].
Qed.

Lemma checkLimit_other (now : Z) (key key' : string) (rl : RateLimiter) :
  key' <> key ->
  buckets (snd (checkLimit now key rl)) !! key' = buckets rl !! key'.
Proof.
  intros Hne. unfold checkLimit.
  destruct (buckets rl !! key) as [b0|]; cbn [snd].
  - destruct (JsNum.gt0 (tokens (refill rl now b0)));
      cbn [snd with_buckets buckets]; apply lookup_insert_ne; congruence.
  - cbn [with_buckets buckets]. apply lookup_insert_ne. congruence.
Qed.

(** The refill step either leaves the bucket alone or adds tokens and
    resets the refill time. *)
Lemma refill_cases (rl : RateLimiter) (now : Z) (b : Bucket) :
  (refill rl now b = b /\
   JsNum.gt0 (JsNum.div_floor (now - lastRefill b) (refillIntervalMs rl)) = false) \/
  (lastRefill (refill rl now b) = now /\
   JsNum.gt0 (JsNum.div_floor (now - lastRefill b) (refillIntervalMs rl)) = true /\
   tokens (refill rl now b)
   = JsNum.min (JsNum.Fin (maxTokens rl))
       (JsNum.add (tokens b)
          (JsNum.mul (JsNum.div_floor (now - lastRefill b) (refillIntervalMs rl))
             (JsNum.Fin (tokensPerRefill rl))))).
Proof.
  unfold refill.
  destruct (JsNum.gt0 (JsNum.div_floor (now - lastRefill b) (refillIntervalMs rl)));
    [right; auto|left; auto].
Qed.

Lemma refill_ok (rl : RateLimiter) (now : Z) (b : Bucket) :
  limiter_params_ok rl -> bucket_ok rl b -> bucket_ok rl (refill rl now b).
Proof.
  intros (Hmax & Hper & Hzero) (k & Hk & Hrange).
  destruct (refill_cases rl now b) as [[-> _]|(_ & Hgt & Htok)]; [exists k; auto|].
  unfold bucket_ok. rewrite Htok, Hk. clear Htok.
  unfold JsNum.div_floor in *.
  destruct (Z.eqb_spec (refillIntervalMs rl) 0) as [H0|Hn0].
  - destruct Hzero as [Hz|Hpos]; [contradiction|].
    destruct (Z.ltb_spec 0 (now - lastRefill b)) as [Hlt|Hge].
    + simpl. destruct (Z.ltb_spec 0 (tokensPerRefill rl)) as [_|Hbad]; [|lia].
      simpl. exists (maxTokens rl). split; [reflexivity|lia].
    + destruct (now - lastRefill b <? 0); discriminate.
  - simpl in Hgt. apply Z.ltb_lt in Hgt. simpl.
    eexists. split; [reflexivity|]. nia.
Qed.

Lemma checkLimit_ok (now : Z) (key : string) (rl : RateLimiter) :
  limiter_ok rl -> limiter_ok (snd (checkLimit now key rl)).
Proof.
  intros [Hp Hb].
  pose proof (checkLimit_params now key rl) as (P1 & P2 & P3).
  split; [unfold limiter_params_ok; rewrite P1, P2, P3; exact Hp|].
  intros key' b' Hlook. unfold bucket_ok. rewrite P1.
  destruct (String.string_dec key' key) as [->|Hne].
  - destruct (checkLimit_lookup now key rl) as [_ Hnew].
    rewrite Hnew in Hlook. injection Hlook as <-.
    destruct (buckets rl !! key) as [b0|] eqn:Hb0.
    + destruct (refill_ok rl now b0 Hp (Hb key b0 Hb0)) as (k & Hk & Hrange).
      rewrite Hk. cbn [JsNum.gt0].
      destruct (Z.ltb_spec 0 k) as [Hpos|Hnon].
      * exists (k - 1). split; [reflexivity|lia].
      * exists k. split; [exact Hk|lia].
    + exists (maxTokens rl - 1). split; [reflexivity|].
      destruct Hp as (Hmax & _). lia.
  - rewrite (checkLimit_other now key key' rl Hne) in Hlook.
    exact (Hb key' b' Hlook).
Qed.

Lemma cleanup_lookup (c : Z) (rl : RateLimiter) (key : string) (b : Bucket) :
  buckets (cleanup c rl) !! key = Some b <->
  buckets rl !! key = Some b /\
  ~ (refillIntervalMs rl * 2 < c - lastRefill b /\
     JsNum.strict_eq (tokens b) (JsNum.Fin (maxTokens rl)) = true).
Proof.
  unfold cleanup. cbn [buckets with_buckets].
  rewrite map_lookup_filter_Some. reflexivity.
Qed.


Lemma cleanup_ok (c : Z) (rl : RateLimiter) :
  limiter_ok rl -> limiter_ok (cleanup c rl).
Proof.
  intros [Hp Hb]. split; [exact Hp|].
  intros key b Hlook. apply cleanup_lookup in Hlook as [Hlook _].
  exact (Hb key b Hlook).
Qed.

Lemma checkLimit_run_ok (key : string) (times : list Z) :
  forall rl, limiter_ok rl -> limiter_ok (snd (checkLimit_run key times rl)).
Proof.
  induction times as [|now rest IH]; intros rl Hok; [exact Hok|].
  simpl. pose proof (checkLimit_ok now key rl Hok) as Hok1.
  destruct (checkLimit now key rl) as [allowed rl1]. cbn [snd] in Hok1.
  specialize (IH rl1 Hok1).
  destruct (checkLimit_run key rest rl1) as [answers rl2]. exact IH.
Qed.

(** A positive interval: the refill count of a bucket refilled at [lr]. *)
Lemma div_floor_positive_interval (a interval : Z) :
  0 < interval ->
  JsNum.div_floor a interval = JsNum.Fin (a / interval).
Proof.
  intros Hpos. unfold JsNum.div_floor.
  destruct (Z.eqb_spec interval 0); [lia|reflexivity].
Qed.

Lemma checkLimit_run_other (key key' : string) (times : list Z) :
  forall rl,
    key' <> key ->
    buckets (snd (checkLimit_run key times rl)) !! key' = buckets rl !! key'.
Proof.
  induction times as [|now rest IH]; intros rl Hne; [reflexivity|].
  simpl. pose proof (checkLimit_other now key key' rl Hne) as Hstep.
  destruct (checkLimit now key rl) as [allowed rl1]. cbn [snd] in Hstep.
  specialize (IH rl1 Hne).
  destruct (checkLimit_run key rest rl1) as [answers rl2]. cbn [snd] in *.
  congruence.
Qed.

Lemma newRateLimiter_ok (maxT interval perRefill : Z) :
  1 <= maxT -> 0 <= perRefill -> (interval <> 0 \/ 0 < perRefill) ->
  limiter_ok (newRateLimiter maxT interval perRefill).
Proof.
  intros H1 H2 H3. split; [repeat split; assumption|].
  intros key b Hlook. unfold newRateLimiter in Hlook. cbn [buckets] in Hlook.
  rewrite lookup_empty in Hlook. discriminate.
Qed.

(** X1: a request touches the bucket of its own key only. [checkLimit]
    leaves the bucket of every other key and the limiter's parameters as
    they were, and so does the start route for every key other than the
    authenticated user's id. *)
Theorem X1_limiter_isolation :
  (forall now key key' rl,
      key' <> key ->
      buckets (snd (checkLimit now key rl)) !! key' = buckets rl !! key' /\
      maxTokens (snd (checkLimit now key rl)) = maxTokens rl /\
      refillIntervalMs (snd (checkLimit now key rl)) = refillIntervalMs rl /\
      tokensPerRefill (snd (checkLimit now key rl)) = tokensPerRefill rl) /\
  (forall JSON_parse URL_pathname USER_PHOTOS env st key',
      post_user env <> Some key' ->
      buckets (limiter (fst (fst (POST JSON_parse URL_pathname USER_PHOTOS env st))))
        !! key'
      = buckets (limiter st) !! key').
Proof.
  split.
  - intros now key key' rl Hne. split; [apply checkLimit_other; exact Hne|].
    apply checkLimit_params.
  - intros JSON_parse URL_pathname USER_PHOTOS env st key' Hne. unfold POST.
    destruct (post_user env) as [user|]; [|reflexivity].
    assert (Hkey : key' <> user) by congruence.
    pose proof (checkLimit_other (clock_check env) user key' (limiter st) Hkey) as Hother.
    destruct (checkLimit (clock_check env) user (limiter st)) as [allowed rl].
    cbn [snd] in Hother. destruct allowed; cbn [negb].
    + destruct (startOpenAIVisionAnalysis _ _ _ _ _) as [[ws trace] [summary|e]];
        exact Hother.
    + exact Hother.
Qed.

Lemma X1_limiter_isolation_witness :
  buckets (snd (checkLimit 1000 "u1" rateLimiter)) !! "u2"
  = buckets rateLimiter !! "u2".
Proof.
  destruct X1_limiter_isolation as [H _].
  apply (H 1000 "u1" "u2" rateLimiter). discriminate.
Defined.

(** X2: token counts stay within the capacity. If the capacity is at
    least 1, the refill amount is not negative and interval and refill
    amount are not both 0, then a new limiter, and every limiter reached
    from one by [checkLimit] and [cleanup], holds in each bucket a finite
    number of tokens between 0 and the capacity; the shipped and the
    documented limiter are of that kind. *)
Theorem X2_token_bounds :
  (forall maxT interval perRefill,
      1 <= maxT -> 0 <= perRefill -> (interval <> 0 \/ 0 < perRefill) ->
      limiter_ok (newRateLimiter maxT interval perRefill)) /\
  (forall now key rl, limiter_ok rl -> limiter_ok (snd (checkLimit now key rl))) /\
  (forall key times rl,
      limiter_ok rl -> limiter_ok (snd (checkLimit_run key times rl))) /\
  (forall c rl, limiter_ok rl -> limiter_ok (cleanup c rl)) /\
  limiter_ok rateLimiter /\ limiter_ok documentedLimiter.
Proof.
  split; [exact newRateLimiter_ok|]. split; [exact checkLimit_ok|].
  split; [intros key times rl; apply checkLimit_run_ok|].
  split; [exact cleanup_ok|].
  split; apply newRateLimiter_ok; lia.
Qed.

Lemma X2_token_bounds_witness :
  limiter_ok (snd (checkLimit_run "u1" [1000; 1000; 2000] (newRateLimiter 3 0 3))).
Proof.
  destruct X2_token_bounds as (Hnew & _ & Hrun & _).
  apply Hrun. apply Hnew; lia.
Defined.

(** X3: with a positive refill interval and a refill amount of at least
    1, a request that a well-formed limiter denies on a clock that does not
    run backwards gets, at that instant, a retry-after that is positive and
    at most the interval, hence at least one second once rounded up. *)
Theorem X3_denial_retry_after (now : Z) (key : string) (rl : RateLimiter) :
  limiter_ok rl ->
  0 < refillIntervalMs rl ->
  1 <= tokensPerRefill rl ->
  clock_ok rl now ->
  fst (checkLimit now key rl) = false ->
  0 < getRetryAfter now key (snd (checkLimit now key rl)) <= refillIntervalMs rl /\
  1 <= ceil_div (getRetryAfter now key (snd (checkLimit now key rl))) 1000.
Proof.
  intros [Hp Hb] Hint Hper Hclock Hdenied.
  destruct (checkLimit_lookup now key rl) as [Hans Hnew].
  pose proof (checkLimit_params now key rl) as (_ & P2 & _).
  rewrite Hdenied in Hans.
  destruct (buckets rl !! key) as [b0|] eqn:Hb0; [|discriminate].
  destruct (Hb key b0 Hb0) as (k & Hk & Hrange).
  pose proof (Hclock key b0 Hb0) as Hlr.
  destruct Hp as (Hmax & _ & _).
  assert (Hretry :
    0 < getRetryAfter now key (snd (checkLimit now key rl)) <= refillIntervalMs rl).
  { unfold getRetryAfter. rewrite Hnew, P2. clear Hnew. rewrite <- Hans.
    destruct (refill_cases rl now b0) as [[Hsame Hno]|(_ & Hgt & Htok)].
    - rewrite Hsame in *. clear Hsame.
      rewrite (div_floor_positive_interval _ _ Hint) in Hno.
      simpl in Hno. apply Z.ltb_ge in Hno.
      assert (now - lastRefill b0 < refillIntervalMs rl).
      { destruct (Z.lt_ge_cases (now - lastRefill b0) (refillIntervalMs rl))
          as [Hlt|Hge]; [exact Hlt|].
        assert (1 <= (now - lastRefill b0) / refillIntervalMs rl);
          [apply Z.div_le_lower_bound; lia|lia]. }
      lia.
    - exfalso.
      rewrite (div_floor_positive_interval _ _ Hint) in Hgt, Htok.
      simpl in Hgt. apply Z.ltb_lt in Hgt.
      rewrite Htok, Hk in Hans. simpl in Hans. symmetry in Hans.
      apply Z.ltb_ge in Hans. nia. }
  split; [exact Hretry|]. unfold ceil_div.
  assert (- getRetryAfter now key (snd (checkLimit now key rl)) / 1000 <= -1);
    [|lia].
  assert (- getRetryAfter now key (snd (checkLimit now key rl)) / 1000 < 0);
    [apply Z.div_lt_upper_bound; lia|lia].
Qed.

Lemma X3_denial_retry_after_witness :
  0 < getRetryAfter 5000 "u1"
        (snd (checkLimit 5000 "u1"
                (snd (checkLimit_run "u1" [1000; 2000; 3000] documentedLimiter))))
  <= 3600000.
Proof.
  apply (X3_denial_retry_after 5000 "u1"
           (snd (checkLimit_run "u1" [1000; 2000; 3000] documentedLimiter))).
  - apply checkLimit_run_ok. apply newRateLimiter_ok; lia.
  - reflexivity.
  - vm_compute. discriminate.
  - intros key b Hlook. destruct (String.string_dec key "u1") as [->|Hne].
    + vm_compute in Hlook. injection Hlook as <-. vm_compute. discriminate.
    + exfalso. revert Hlook.
      rewrite (checkLimit_run_other "u1" key [1000; 2000; 3000] documentedLimiter Hne).
      unfold documentedLimiter, newRateLimiter. cbn [buckets].
      rewrite lookup_empty. discriminate.
  - vm_compute. reflexivity.
Defined.

(** X4: the bucket refills once an interval has passed. With a positive
    interval and a refill amount of at least 1, a request arriving an
    interval or more after the bucket's last refill is allowed by a
    well-formed limiter, the refill time becomes the time of the request,
    and when the refill amount equals the capacity the bucket is left with
    the capacity minus one. *)
Theorem X4_refill_after_interval (now : Z) (key : string) (rl : RateLimiter)
  (b : Bucket) :
  limiter_ok rl ->
  0 < refillIntervalMs rl ->
  1 <= tokensPerRefill rl ->
  buckets rl !! key = Some b ->
  lastRefill b + refillIntervalMs rl <= now ->
  fst (checkLimit now key rl) = true /\
  exists b',
    buckets (snd (checkLimit now key rl)) !! key = Some b' /\
    lastRefill b' = now /\
    (exists k, tokens b' = JsNum.Fin k /\ 0 <= k < maxTokens rl) /\
    (tokensPerRefill rl = maxTokens rl ->
     tokens b' = JsNum.Fin (maxTokens rl - 1)).
Proof.
  intros [Hp Hb] Hint Hper Hlook Hlate.
  destruct (checkLimit_lookup now key rl) as [Hans Hnew].
  rewrite Hlook in Hans, Hnew.
  destruct (Hb key b Hlook) as (k & Hk & Hrange).
  destruct Hp as (Hmax & _ & _).
  assert (Hr : 1 <= (now - lastRefill b) / refillIntervalMs rl)
    by (apply Z.div_le_lower_bound; lia).
  destruct (refill_cases rl now b) as [[_ Hno]|(Hlr & _ & Htok)].
  { rewrite (div_floor_positive_interval _ _ Hint) in Hno.
    simpl in Hno. apply Z.ltb_ge in Hno. lia. }
  rewrite (div_floor_positive_interval _ _ Hint), Hk in Htok. simpl in Htok.
  rewrite Htok in Hans, Hnew. cbn [JsNum.gt0 JsNum.pred] in Hans, Hnew.
  assert (Hpos : 0 < Z.min (maxTokens rl)
                       (k + (now - lastRefill b) / refillIntervalMs rl
                            * tokensPerRefill rl)) by nia.
  apply Z.ltb_lt in Hpos. rewrite Hpos in Hans, Hnew.
  split; [exact Hans|]. eexists. split; [exact Hnew|].
  cbn [lastRefill tokens]. split; [exact Hlr|]. split.
  - eexists. split; [reflexivity|]. apply Z.ltb_lt in Hpos. lia.
  - intros Heq. f_equal. nia.
Qed.

Lemma X4_refill_after_interval_witness :
  fst (checkLimit 3601000 "u1"
         (snd (checkLimit_run "u1" [1000; 1000; 1000; 1000] documentedLimiter)))
  = true.
Proof.
  apply (X4_refill_after_interval 3601000 "u1"
           (snd (checkLimit_run "u1" [1000; 1000; 1000; 1000] documentedLimiter))
           (mkBucket (JsNum.Fin 0) 1000)).
  - apply checkLimit_run_ok. apply newRateLimiter_ok; lia.
  - reflexivity.
  - vm_compute. discriminate.
  - vm_compute. reflexivity.
  - vm_compute. discriminate.
Defined.



(** ** Output contract: exactness *)

Lemma z_string_min1_iff (v : option JSON) (s : string) :
  z_string_min1 v = Some s <-> v = Some (JStr s) /\ s <> "".
Proof.
  split; [apply z_string_min1_Some|].
  intros [-> Hne]. destruct s as [|c rest]; [contradiction|reflexivity].
Qed.

Lemma z_severity_iff (v : option JSON) (sev : Severity) :
  z_severity v = Some sev <-> v = Some (JStr (severity_name sev)).
Proof.
  split.
  - destruct v as [[| | |s| |]|]; try discriminate. unfold z_severity.
    destruct (String.eqb_spec s "low") as [->|_];
      [intros [= <-]; reflexivity|].
    destruct (String.eqb_spec s "moderate") as [->|_];
      [intros [= <-]; reflexivity|].
    destruct (String.eqb_spec s "high") as [->|_];
      [intros [= <-]; reflexivity|discriminate].
  - intros ->. destruct sev; reflexivity.
Qed.

(** [SkinTraitSchema] accepts an object exactly when its four keys hold
    three non-empty strings and one of the three severity names. *)
Lemma SkinTraitSchema_iff (fields : list (string * JSON)) (t : SkinTrait) :
  SkinTraitSchema (JObj fields) = Some t <->
  prop "id" fields = Some (JStr (id t)) /\
  prop "name" fields = Some (JStr (name t)) /\
  prop "severity" fields = Some (JStr (severity_name (severity t))) /\
  prop "description" fields = Some (JStr (description t)) /\
  trait_well_formed t.
Proof.
  unfold SkinTraitSchema, trait_well_formed. split.
  - destruct (z_string_min1 (prop "id" fields)) as [i|] eqn:Hi; simpl; [|discriminate].
    destruct (z_string_min1 (prop "name" fields)) as [n|] eqn:Hn; simpl; [|discriminate].
    destruct (z_severity (prop "severity" fields)) as [sv|] eqn:Hs; simpl; [|discriminate].
    destruct (z_string_min1 (prop "description" fields)) as [d|] eqn:Hd; simpl;
      [|discriminate].
    intros [= <-]. simpl.
    apply z_string_min1_iff in Hi as [Hi Hi'], Hn as [Hn Hn'], Hd as [Hd Hd'].
    apply z_severity_iff in Hs. auto 10.
  - intros (Hi & Hn & Hs & Hd & Hi' & Hn' & Hd').
    rewrite (proj2 (z_string_min1_iff _ (id t)) (conj Hi Hi')).
    rewrite (proj2 (z_string_min1_iff _ (name t)) (conj Hn Hn')).
    rewrite (proj2 (z_severity_iff _ (severity t)) Hs).
    rewrite (proj2 (z_string_min1_iff _ (description t)) (conj Hd Hd')).
    destruct t; reflexivity.
Qed.

Lemma SkinTraitSchema_object (item : JSON) (t : SkinTrait) :
  SkinTraitSchema item = Some t -> exists fields, item = JObj fields.
Proof. destruct item; try discriminate. eauto. Qed.

Lemma SkinTraitSchema_trait_json (t : SkinTrait) :
  trait_well_formed t -> SkinTraitSchema (trait_json t) = Some t.
Proof.
  intros Hwf. unfold trait_json. apply SkinTraitSchema_iff.
  repeat split; try reflexivity; apply Hwf.
Qed.

Lemma mapM_trait_json (ts : list SkinTrait) :
  Forall trait_well_formed ts ->
  mapM SkinTraitSchema (List.map trait_json ts) = Some ts.
Proof.
  induction 1 as [|t ts Ht _ IH]; [reflexivity|].
  cbn [List.map mapM]. rewrite (SkinTraitSchema_trait_json t Ht). simpl.
  rewrite IH. reflexivity.
Qed.

Lemma mapM_z_string (ns : list string) :
  mapM z_string (List.map JStr ns) = Some ns.
Proof.
  induction ns as [|n ns IH]; [reflexivity|].
  cbn [List.map mapM z_string]. simpl. rewrite IH. reflexivity.
Qed.

Lemma mapM_traits_well_formed (items : list JSON) (ts : list SkinTrait) :
  mapM SkinTraitSchema items = Some ts -> Forall trait_well_formed ts.
Proof.
  intros H. apply mapM_Some_1 in H.
  induction H as [|item t items ts Hitem _ IH]; constructor; [|exact IH].
  destruct (SkinTraitSchema_object item t Hitem) as (fields & ->).
  apply SkinTraitSchema_iff in Hitem. apply Hitem.
Qed.

Lemma VisionAnalysisSchema_well_formed (payload : JSON) (v : VisionAnalysis) :
  VisionAnalysisSchema payload = Some v -> analysis_well_formed v.
Proof.
  destruct payload as [| | | | |fields]; try discriminate.
  unfold VisionAnalysisSchema, analysis_well_formed.
  destruct (z_skinType _) as [st|] eqn:Hst; simpl; [|discriminate].
  destruct (z_confidence _) as [c|] eqn:Hc; simpl; [|discriminate].
  destruct (z_string_min1 (prop "primaryConcern" fields)) as [pc|] eqn:Hpc;
    simpl; [|discriminate].
  destruct (z_traits _) as [ts|] eqn:Hts; simpl; [|discriminate].
  destruct (z_notes _) as [ns|] eqn:Hns; simpl; [|discriminate].
  destruct (z_string_min1 (prop "modelVersion" fields)) as [mv|] eqn:Hmv;
    simpl; [|discriminate].
  intros [= <-]. simpl.
  apply z_skinType_In in Hst as [_ Hst].
  apply z_confidence_range in Hc as (_ & Hc0 & Hc1).
  apply z_string_min1_Some in Hpc as [_ Hpc], Hmv as [_ Hmv].
  pose proof (z_traits_nonempty _ _ Hts) as (items & Hitems & _ & Hne).
  rewrite Hitems in Hts. unfold z_traits in Hts.
  destruct (mapM SkinTraitSchema items) as [ts'|] eqn:Hm; [|discriminate].
  destruct ts' as [|t0 ts0]; [discriminate|].
  change (Some (t0 :: ts0) = Some ts) in Hts. injection Hts as <-.
  repeat split; auto. exact (mapM_traits_well_formed items (t0 :: ts0) Hm).
Qed.

Lemma VisionAnalysisSchema_fields (fields : list (string * JSON)) (v : VisionAnalysis) :
  analysis_well_formed v ->
  prop "skinType" fields = Some (JStr (skinType v)) ->
  prop "confidence" fields = Some (JNum (confidence v)) ->
  prop "primaryConcern" fields = Some (JStr (primaryConcern v)) ->
  prop "traits" fields = Some (JArr (List.map trait_json (traits v))) ->
  prop "notes" fields = Some (JArr (List.map JStr (notes v))) \/
  (prop "notes" fields = None /\ notes v = []) ->
  prop "modelVersion" fields = Some (JStr (modelVersion v)) ->
  VisionAnalysisSchema (JObj fields) = Some v.
Proof.
  intros (Hst & Hc0 & Hc1 & Hpc & Hne & Hts & Hmv) P1 P2 P3 P4 P5 P6.
  unfold VisionAnalysisSchema. rewrite P1, P2, P3, P4, P6.
  assert (E1 : z_skinType (Some (JStr (skinType v))) = Some (skinType v)).
  { unfold z_skinType.
    replace (existsb (String.eqb (skinType v)) skinTypes) with true; [reflexivity|].
    symmetry. apply existsb_exists. exists (skinType v).
    split; [exact Hst|apply String.eqb_refl]. }
  assert (E2 : z_confidence (Some (JNum (confidence v))) = Some (confidence v)).
  { unfold z_confidence.
    apply Qle_bool_iff in Hc0, Hc1. rewrite Hc0, Hc1. reflexivity. }
  assert (E3 : z_traits (Some (JArr (List.map trait_json (traits v))))
               = Some (traits v)).
  { unfold z_traits. rewrite (mapM_trait_json _ Hts). simpl.
    destruct (traits v); [contradiction|reflexivity]. }
  assert (E4 : z_notes (prop "notes" fields) = Some (notes v)).
  { destruct P5 as [->|[-> ->]]; [apply mapM_z_string|reflexivity]. }
  rewrite E1, E2, E3, E4.
  rewrite (proj2 (z_string_min1_iff _ (primaryConcern v)) (conj eq_refl Hpc)).
  rewrite (proj2 (z_string_min1_iff _ (modelVersion v)) (conj eq_refl Hmv)).
  destruct v; reflexivity.
Qed.

(** X6: the output contract accepts exactly well-formed analyses and
    hands them on unchanged. Whatever [VisionAnalysisSchema] accepts has a
    skin type among the five, a confidence in [0, 100], a non-empty primary
    concern and model version, and at least one trait, all with non-empty
    id, name and description; and the JSON object of such an analysis is
    accepted with that very analysis as data, its notes defaulting to the
    empty list when the [notes] key is absent. *)
Theorem X6_schema_exact :
  (forall payload v,
      VisionAnalysisSchema payload = Some v -> analysis_well_formed v) /\
  (forall v,
      analysis_well_formed v ->
      VisionAnalysisSchema (analysis_json v) = Some v) /\
  (forall v,
      analysis_well_formed v ->
      notes v = [] ->
      VisionAnalysisSchema (analysis_json_without_notes v) = Some v).
Proof.
  split; [exact VisionAnalysisSchema_well_formed|]. split.
  - intros v Hwf. unfold analysis_json.
    apply VisionAnalysisSchema_fields; try reflexivity; [exact Hwf|].
    left. reflexivity.
  - intros v Hwf Hnotes. unfold analysis_json_without_notes.
    apply VisionAnalysisSchema_fields; try reflexivity; [exact Hwf|].
    right. split; [reflexivity|exact Hnotes].
Qed.

Lemma X6_schema_exact_witness :
  analysis_well_formed
    (mkVisionAnalysis "Oily" 85 "Excess oil production"
       [mkSkinTrait "oiliness" "Oiliness" high "Significant sebum production"]
       [] "gpt-4o-mini") /\
  VisionAnalysisSchema
    (analysis_json_without_notes
       (mkVisionAnalysis "Oily" 85 "Excess oil production"
          [mkSkinTrait "oiliness" "Oiliness" high "Significant sebum production"]
          [] "gpt-4o-mini"))
  = Some (mkVisionAnalysis "Oily" 85 "Excess oil production"
            [mkSkinTrait "oiliness" "Oiliness" high "Significant sebum production"]
            [] "gpt-4o-mini").
Proof.
  assert (Hwf : analysis_well_formed
    (mkVisionAnalysis "Oily" 85 "Excess oil production"
       [mkSkinTrait "oiliness" "Oiliness" high "Significant sebum production"]
       [] "gpt-4o-mini")).
  { unfold analysis_well_formed. simpl.
    split; [right; left; reflexivity|].
    split; [discriminate|]. split; [discriminate|].
    split; [discriminate|]. split; [discriminate|].
    split; [|discriminate].
    constructor; [|constructor]. repeat split; discriminate. }
  split; [exact Hwf|].
  destruct X6_schema_exact as (_ & _ & H). apply H; [exact Hwf|reflexivity].
Defined.

(** X7: traits are validated one by one and all or nothing.
    [SkinTraitSchema] accepts an object exactly when [id], [name] and
    [description] are non-empty strings and [severity] is one of [low],
    [moderate], [high]; and a payload whose trait array contains a single
    element the trait schema rejects is rejected as a whole. *)
Theorem X7_trait_validation :
  (forall fields t,
      SkinTraitSchema (JObj fields) = Some t <->
      prop "id" fields = Some (JStr (id t)) /\
      prop "name" fields = Some (JStr (name t)) /\
      prop "severity" fields = Some (JStr (severity_name (severity t))) /\
      prop "description" fields = Some (JStr (description t)) /\
      trait_well_formed t) /\
  (forall fields items item,
      prop "traits" fields = Some (JArr items) ->
      In item items ->
      SkinTraitSchema item = None ->
      VisionAnalysisSchema (JObj fields) = None).
Proof.
  split; [exact SkinTraitSchema_iff|].
  intros fields items item Hprop Hin Hbad.
  assert (Hts : z_traits (prop "traits" fields) = None).
  { rewrite Hprop. unfold z_traits.
    rewrite (mapM_None_2 SkinTraitSchema items); [reflexivity|].
    apply Exists_exists. exists item.
    split; [apply list_elem_of_In; exact Hin|exact Hbad]. }
  unfold VisionAnalysisSchema.
  destruct (z_skinType _); simpl; [|reflexivity].
  destruct (z_confidence _); simpl; [|reflexivity].
  destruct (z_string_min1 (prop "primaryConcern" fields)); simpl; [|reflexivity].
  rewrite Hts. reflexivity.
Qed.

Lemma X7_trait_validation_witness :
  VisionAnalysisSchema
    (JObj [("skinType", JStr "Oily"); ("confidence", JNum 80);
           ("primaryConcern", JStr "oiliness");
           ("traits",
            JArr [Fixture.trait "oiliness" "Oiliness" "high" "Very oily";
                  Fixture.trait "acne" "Acne" "extreme" "Active breakouts"]);
           ("modelVersion", JStr "gpt-4o-mini")]) = None.
Proof.
  destruct X7_trait_validation as [_ H].
  apply (H _ [Fixture.trait "oiliness" "Oiliness" "high" "Very oily";
              Fixture.trait "acne" "Acne" "extreme" "Active breakouts"]
           (Fixture.trait "acne" "Acne" "extreme" "Active breakouts")).
  - reflexivity.
  - right. left. reflexivity.
  - reflexivity.
Defined.

(** ** Vision client: what a call returns and how long it waits *)

Lemma attempt_body_Ok (JSON_parse : string -> option JSON) (env : VisionEnv)
  (k : nat) (v : VisionAnalysis) :
  attempt_body JSON_parse env k = Ok v ->
  exists text payload,
    create env k = CreateReturns (Some text) /\ text <> "" /\
    JSON_parse text = Some payload /\ VisionAnalysisSchema payload = Some v.
Proof.
  unfold attempt_body.
  destruct (create env k) as [e|[[|c text]|]]; try discriminate.
  destruct (JSON_parse (String c text)) as [payload|] eqn:Hparse; [|discriminate].
  destruct (VisionAnalysisSchema payload) as [data|] eqn:Hschema; [|discriminate].
  intros [= <-]. exists (String c text), payload. repeat split; auto; discriminate.
Qed.

Lemma retry_loop_Ok (JSON_parse : string -> option JSON) (env : VisionEnv)
  (urls : list string) (v : VisionAnalysis) (remaining : nat) :
  forall attempt lastError,
    snd (retry_loop JSON_parse env urls remaining attempt lastError) = Ok v ->
    exists k,
      In (Create k urls)
        (fst (retry_loop JSON_parse env urls remaining attempt lastError)) /\
      attempt_body JSON_parse env k = Ok v /\
      (attempt + attempts_made
                   (fst (retry_loop JSON_parse env urls remaining attempt lastError))
       = S k)%nat.
Proof.
  induction remaining as [|remaining IH]; intros attempt lastError Hok;
    [discriminate|].
  pose proof (retry_loop_step JSON_parse env urls remaining attempt lastError) as Hstep.
  cbv zeta in Hstep.
  destruct (attempt_body JSON_parse env attempt) as [data|e] eqn:Hbody.
  - rewrite Hstep in *. cbn [fst snd] in *. injection Hok as ->.
    exists attempt. split; [apply in_or_app; right; left; reflexivity|].
    split; [exact Hbody|]. rewrite attempts_made_steps. lia.
  - destruct (catch_block attempt e); rewrite Hstep in *; cbn [fst snd] in *;
      try discriminate.
    destruct (IH (S attempt) (Some e) Hok) as (k & Hin & Hk & Hmade).
    exists k. split; [apply in_or_app; right; exact Hin|].
    split; [exact Hk|].
    rewrite attempts_made_app, attempts_made_steps. lia.
Qed.

Lemma first_invalid_url_None (URL_pathname : string -> option string)
  (urls : list string) :
  first_invalid_url URL_pathname urls = None ->
  forall u, In u urls -> URL_pathname u <> None.
Proof.
  unfold first_invalid_url. intros Hnone u Hin Hu.
  pose proof (List.find_none _ _ Hnone u Hin) as Hf. simpl in Hf.
  rewrite Hu in Hf. discriminate.
Qed.

(** X8: a call returns only data that the provider sent and the schema
    accepted. When [callVision] returns an analysis it was given exactly 3
    URLs that [new URL] accepts, the analysis is the result of validating
    the parsed, non-empty reply of the last attempt made, it is well-formed,
    and every earlier attempt failed with a provider [APIError] of status
    429 or 5xx. *)
Theorem X8_callVision_returns_validated (JSON_parse : string -> option JSON)
  (URL_pathname : string -> option string) (env : VisionEnv)
  (urls : list string) (v : VisionAnalysis) :
  snd (callVision JSON_parse URL_pathname env urls) = Ok v ->
  length urls = 3%nat /\
  (forall u, In u urls -> URL_pathname u <> None) /\
  analysis_well_formed v /\
  exists k text payload,
    attempts_made (fst (callVision JSON_parse URL_pathname env urls)) = S k /\
    create env k = CreateReturns (Some text) /\ text <> "" /\
    JSON_parse text = Some payload /\
    VisionAnalysisSchema payload = Some v /\
    forall j, (j < k)%nat ->
      exists status message,
        create env j = CreateThrows (ProviderAPIError (Some status) message) /\
        retryable_status status.
Proof.
  intros Hok.
  destruct (callVision_cases JSON_parse URL_pathname env urls)
    as [(e & Hcall & _)|(Hlen & Hurl & Hcall)]; rewrite Hcall in *;
    [discriminate|].
  destruct (retry_loop_Ok JSON_parse env urls v maxAttempts 0 None Hok)
    as (k & Hin & Hbody & Hmade).
  destruct (attempt_body_Ok JSON_parse env k v Hbody)
    as (text & payload & Hcreate & Htext & Hparse & Hschema).
  split; [exact Hlen|].
  split; [exact (first_invalid_url_None URL_pathname urls Hurl)|].
  split; [exact (VisionAnalysisSchema_well_formed payload v Hschema)|].
  exists k, text, payload. repeat split; auto.
  intros j Hj.
  apply (retry_loop_retry_cause JSON_parse env urls urls maxAttempts 0 None j);
    [|lia].
  apply (retry_loop_prefix JSON_parse env urls maxAttempts 0 None (S j)).
  apply (retry_loop_prefix JSON_parse env urls maxAttempts 0 None k) in Hin. lia.
Qed.

Lemma X8_callVision_returns_validated_witness :
  analysis_well_formed
    (mkVisionAnalysis "Combination" 88 "Mixed skin zones"
       [mkSkinTrait "oiliness" "Oiliness" moderate "Oily T-zone";
        mkSkinTrait "dryness" "Dryness" low "Dry cheeks"]
       [] "gpt-4o-mini").
Proof.
  apply (X8_callVision_returns_validated Fixture.JSON_parse Fixture.URL_pathname
           (Fixture.replies "<combination>") Fixture.three_urls).
  vm_compute. reflexivity.
Defined.









(** ** Summary mapper on validated data *)




(** ** Image resolution *)

Lemma image_filter_In (senv : StorageEnv) (userId : string) (a : ImageAngle)
  (r : Image.t) :
  In r (List.filter
          (fun r => String.eqb (Image.user_id r) userId
                    && ImageAngle_eqb (Image.angle r) a
                    && negb (bool_decide (is_Some (Image.deleted_at r))))
          (uploaded_images senv))
  <-> In r (uploaded_images senv) /\ Image.user_id r = userId /\
      Image.angle r = a /\ Image.deleted_at r = None.
Proof.
  rewrite List.filter_In, !andb_true_iff, String.eqb_eq.
  assert (Ha : ImageAngle_eqb (Image.angle r) a = true <-> Image.angle r = a)
    by (destruct (Image.angle r), a; simpl; split; congruence).
  assert (Hd : negb (bool_decide (is_Some (Image.deleted_at r))) = true
               <-> Image.deleted_at r = None).
  { destruct (Image.deleted_at r) as [t|]; simpl; split; congruence. }
  rewrite Ha, Hd. tauto.
Qed.

Lemma latest_image_spec (senv : StorageEnv) (userId : string) (a : ImageAngle)
  (r : Image.t) :
  latest_image senv userId a = Some r -> latest_for senv userId a r.
Proof.
  unfold latest_image. intros Hmax.
  apply first_max_spec in Hmax as [Hin Hle].
  - apply image_filter_In in Hin as (Hin & Hu & Ha & Hd).
    repeat split; auto.
    intros r' Hin' Hu' Ha' Hd'. apply Z.leb_le. apply Hle.
    apply image_filter_In. auto.
  - intros x y. rewrite !Z.leb_le. lia.
  - intros x y z. rewrite !Z.leb_le. lia.
Qed.

Lemma latest_image_present (senv : StorageEnv) (userId : string) (a : ImageAngle) :
  has_image_for senv userId a -> latest_image senv userId a <> None.
Proof.
  intros (img & Hin & Hu & Ha & Hd) Hnone. unfold latest_image in Hnone.
  apply first_max_None in Hnone.
  assert (Habs : In img []); [|contradiction].
  rewrite <- Hnone. apply image_filter_In. auto.
Qed.

Lemma getUserImagesForAngles_Ok (senv : StorageEnv) (userId : string)
  (angles : list ImageAngle) :
  forall rows,
    getUserImagesForAngles senv userId angles = Ok rows ->
    Forall2 (latest_for senv userId) angles rows /\
    forall a, In a angles -> image_query_error senv a = false.
Proof.
  induction angles as [|a angles IH]; intros rows Hok; simpl in Hok.
  - injection Hok as <-. split; [constructor|contradiction].
  - destruct (image_query_error senv a) eqn:Hq; [discriminate|].
    destruct (latest_image senv userId a) as [data|] eqn:Hl; [|discriminate].
    destruct (getUserImagesForAngles senv userId angles) as [results|e];
      [|discriminate].
    injection Hok as <-. destruct (IH results eq_refl) as [Hall Hqs].
    split.
    + constructor; [apply latest_image_spec; exact Hl|exact Hall].
    + intros b [<-|Hb]; [exact Hq|apply Hqs; exact Hb].
Qed.

(** X12: image lookup per angle. When [getUserImagesForAngles] returns, it
    returns one row per requested angle, in the order of the angles, and
    each row is an image of the owner for that angle that is not deleted
    and that no other such image was created after; no query failed. It
    does return when every requested angle's query succeeds and the owner
    has a non-deleted image for it. *)
Theorem X12_images_per_angle (senv : StorageEnv) (userId : string)
  (angles : list ImageAngle) :
  (forall rows,
      getUserImagesForAngles senv userId angles = Ok rows ->
      Forall2 (latest_for senv userId) angles rows /\
      length rows = length angles /\
      forall a, In a angles -> image_query_error senv a = false) /\
  ((forall a, In a angles ->
              image_query_error senv a = false /\ has_image_for senv userId a) ->
   exists rows, getUserImagesForAngles senv userId angles = Ok rows).
Proof.
  split.
  - intros rows Hok.
    destruct (getUserImagesForAngles_Ok senv userId angles rows Hok) as [Hall Hq].
    split; [exact Hall|]. split; [|exact Hq].
    symmetry. eapply Forall2_length. exact Hall.
  - induction angles as [|a angles IH]; intros Hall; [exists []; reflexivity|].
    simpl. destruct (Hall a (or_introl eq_refl)) as [Hq Hhas]. rewrite Hq.
    destruct (latest_image senv userId a) as [data|] eqn:Hl;
      [|exfalso; exact (latest_image_present senv userId a Hhas Hl)].
    destruct IH as [rows ->]; [intros b Hb; apply Hall; right; exact Hb|].
    exists (data :: rows). reflexivity.
Qed.

Lemma X12_images_per_angle_witness :
  Forall2 (latest_for (Fixture.storage_of Fixture.all_images) "u1")
    requiredAngles Fixture.all_images.
Proof.
  apply (proj1 (X12_images_per_angle (Fixture.storage_of Fixture.all_images)
                  "u1" requiredAngles)).
  reflexivity.
Defined.

Lemma getSignedUrl_Ok (senv : StorageEnv) (storagePath url : string) :
  getSignedUrl senv storagePath = Ok url ->
  url <> "" /\ createSignedUrl senv storagePath = Ok url.
Proof.
  unfold getSignedUrl.
  destruct (createSignedUrl senv storagePath) as [[|c rest]|m]; try discriminate.
  intros [= <-]. split; [discriminate|reflexivity].
Qed.

Lemma sign_rows_Ok (URL_pathname : string -> option string) (USER_PHOTOS : string)
  (senv : StorageEnv) (rows : list Image.t) :
  forall urls,
    sign_rows URL_pathname USER_PHOTOS senv rows = Ok urls ->
    Forall2 (signed_for URL_pathname USER_PHOTOS senv) rows urls.
Proof.
  induction rows as [|row rows IH]; intros urls Hok; simpl in Hok.
  - injection Hok as <-. constructor.
  - destruct (extractStoragePath URL_pathname (Image.storage_url row) USER_PHOTOS)
      as [storagePath|e] eqn:Hpath; [|discriminate].
    destruct (getSignedUrl senv storagePath) as [signedUrl|e] eqn:Hsign;
      [|discriminate].
    destruct (sign_rows URL_pathname USER_PHOTOS senv rows) as [rest|e];
      [|discriminate].
    injection Hok as <-. apply getSignedUrl_Ok in Hsign as [Hne Hcreate].
    constructor; [|apply IH; reflexivity].
    split; [exact Hne|]. exists storagePath. split; assumption.
Qed.

(** X13: what the service hands to the vision client. When
    [getSignedImageUrls] returns, it returns exactly three URLs and three
    image ids, for the owner's most recent non-deleted front, left-45 and
    right-45 images in that order; each URL is non-empty and is the signed
    URL the storage service issued for the storage path extracted from that
    image's stored URL. *)
Theorem X13_signed_urls (URL_pathname : string -> option string)
  (USER_PHOTOS : string) (senv : StorageEnv) (userId : string)
  (urls imageIds : list string) :
  getSignedImageUrls URL_pathname USER_PHOTOS senv userId = Ok (urls, imageIds) ->
  length urls = 3%nat /\ length imageIds = 3%nat /\
  exists rows,
    Forall2 (latest_for senv userId) [front; left_45; right_45] rows /\
    imageIds = List.map Image.id rows /\
    Forall2 (signed_for URL_pathname USER_PHOTOS senv) rows urls.
Proof.
  unfold getSignedImageUrls. intros Hok.
  destruct (getUserImagesForAngles senv userId requiredAngles) as [rows|e] eqn:Hrows;
    [|discriminate].
  destruct (sign_rows URL_pathname USER_PHOTOS senv rows) as [us|e] eqn:Hsign;
    [|discriminate].
  injection Hok as <- <-.
  apply getUserImagesForAngles_Ok in Hrows as [Hall _].
  apply sign_rows_Ok in Hsign.
  pose proof Hall as Hlen. apply Forall2_length in Hlen.
  pose proof Hsign as Hlen'. apply Forall2_length in Hlen'.
  unfold requiredAngles in *. simpl in Hlen.
  split; [lia|]. split; [rewrite length_map; lia|].
  exists rows. repeat split; assumption.
Qed.

Lemma X13_signed_urls_witness :
  length Fixture.three_urls = 3%nat.
Proof.
  apply (X13_signed_urls Fixture.URL_pathname Fixture.USER_PHOTOS
           (Fixture.storage_of Fixture.all_images) "u1" Fixture.three_urls
           ["img-front"; "img-left"; "img-right"]).
  vm_compute. reflexivity.
Defined.

(** ** Storage paths *)

Lemma split_slash_aux_nonempty (s cur : string) : split_slash_aux s cur <> [].
Proof.
  revert cur. induction s as [|c s IH]; intros cur; simpl; [discriminate|].
  destruct (Ascii.eqb c "/"); [discriminate|apply IH].
Qed.

Lemma append_cons (x : ascii) (a b : string) :
  (String x a ++ b = String x (a ++ b))%string.
Proof. reflexivity. Qed.

Lemma append_assoc (a b c : string) : ((a ++ b) ++ c = a ++ (b ++ c))%string.
Proof.
  induction a as [|x a IH]; [reflexivity|].
  rewrite !append_cons, IH. reflexivity.
Qed.

Lemma append_empty_r (a : string) : (a ++ "" = a)%string.
Proof.
  induction a as [|x a IH]; [reflexivity|].
  rewrite append_cons, IH. reflexivity.
Qed.

Lemma concat_split_slash_aux (s : string) :
  forall cur, String.concat "/" (split_slash_aux s cur) = cur ++ s.
Proof.
  induction s as [|c s IH]; intros cur; cbn [split_slash_aux].
  - symmetry. apply append_empty_r.
  - destruct (Ascii.eqb_spec c "/") as [->|_].
    + pose proof (split_slash_aux_nonempty s "") as Hne.
      specialize (IH "").
      destruct (split_slash_aux s "") as [|p ps]; [contradiction|].
      change (String.concat "/" (cur :: p :: ps))
        with (cur ++ "/" ++ String.concat "/" (p :: ps))%string.
      rewrite IH. reflexivity.
    + rewrite IH, append_assoc. reflexivity.
Qed.

Lemma after_first_spec (x : string) (parts : list string) :
  forall rest,
    after_first x parts = Some rest ->
    exists before, parts = (before ++ x :: rest)%list /\ ~ In x before.
Proof.
  induction parts as [|p parts IH]; intros rest Hsome; [discriminate|].
  simpl in Hsome. destruct (String.eqb_spec p x) as [->|Hne].
  - injection Hsome as <-. exists []. split; [reflexivity|intros []].
  - destruct (IH rest Hsome) as (before & -> & Hnot).
    exists (p :: before). split; [reflexivity|].
    intros [Heq|Hin]; [exact (Hne Heq)|exact (Hnot Hin)].
Qed.

Lemma concat_tail (sep x : string) (before rest : list string) :
  rest <> [] ->
  String.concat sep (before ++ x :: rest)
  = String.concat sep (before ++ [x; String.concat sep rest]).
Proof.
  intros Hrest. induction before as [|b before IH].
  - destruct rest as [|r rest]; [contradiction|reflexivity].
  - change (String.concat sep (b :: (before ++ x :: rest))
            = String.concat sep (b :: (before ++ [x; String.concat sep rest]))).
    destruct before as [|b' before]; simpl in *; rewrite IH; reflexivity.
Qed.

Lemma split_slash_aux_segment (seg rest : string) :
  no_slash seg ->
  forall cur,
    split_slash_aux (seg ++ String "/" rest) cur
    = (cur ++ seg)%string :: split_slash_aux rest "".
Proof.
  induction seg as [|c seg IH]; intros Hns cur.
  - change ("" ++ String "/" rest)%string with (String "/" rest).
    simpl. rewrite append_empty_r. reflexivity.
  - destruct Hns as [Hc Hns]. rewrite append_cons. simpl.
    destruct (Ascii.eqb_spec c "/") as [Heq|_]; [contradiction|].
    rewrite (IH Hns). rewrite append_assoc. reflexivity.
Qed.

(** X14: storage paths. Joining the segments [split('/')] gives back the
    string. When [extractStoragePath] returns a path, the path is not
    empty and the URL's pathname is, segment by segment, some segments
    other than the bucket name, then the bucket name, then the path. On a
    URL of the documented format, [/storage/v1/object/public/{bucket}/{path}],
    it returns [{path}]. Every failure is reported as the same
    [invalid_storage_url] error quoting the stored URL. *)
Theorem X14_storage_path (URL_pathname : string -> option string)
  (storageUrl bucketName : string) :
  (forall s, String.concat "/" (split_slash s) = s) /\
  (forall storagePath,
      extractStoragePath URL_pathname storageUrl bucketName = Ok storagePath ->
      storagePath <> "" /\
      exists pathname before,
        URL_pathname storageUrl = Some pathname /\
        ~ In bucketName before /\
        pathname = String.concat "/" (before ++ [bucketName; storagePath])) /\
  (forall storagePath,
      no_slash bucketName ->
      ~ In bucketName [""; "storage"; "v1"; "object"; "public"] ->
      storagePath <> "" ->
      URL_pathname storageUrl
      = Some ("/storage/v1/object/public/" ++ bucketName ++ "/" ++ storagePath) ->
      extractStoragePath URL_pathname storageUrl bucketName = Ok storagePath) /\
  (forall e,
      extractStoragePath URL_pathname storageUrl bucketName = Err e ->
      e = mkImageRetrievalError ("Invalid storage URL format: " ++ storageUrl)
            "invalid_storage_url").
Proof.
  split; [|split; [|split]].
  - intros s. unfold split_slash. apply concat_split_slash_aux.
  - intros storagePath. unfold extractStoragePath. cbv zeta.
    destruct (URL_pathname storageUrl) as [pathname|]; [|discriminate].
    destruct (after_first bucketName (split_slash pathname)) as [parts|] eqn:Hafter;
      [|discriminate].
    destruct (String.concat "/" parts) as [|c path] eqn:Hpath; [discriminate|].
    intros [= <-]. split; [discriminate|].
    apply after_first_spec in Hafter as (before & Hsplit & Hnot).
    exists pathname, before. split; [reflexivity|]. split; [exact Hnot|].
    rewrite <- Hpath. rewrite <- concat_tail.
    + rewrite <- Hsplit. unfold split_slash.
      rewrite concat_split_slash_aux. reflexivity.
    + intros ->. discriminate Hpath.
  - intros storagePath Hns Hnot Hpath Hurl.
    unfold extractStoragePath. cbv zeta. rewrite Hurl.
    assert (Hsplit :
      split_slash ("/storage/v1/object/public/" ++ bucketName ++ "/" ++ storagePath)
      = "" :: "storage" :: "v1" :: "object" :: "public" :: bucketName
           :: split_slash storagePath).
    { unfold split_slash. rewrite !append_cons.
      change ("" ++ bucketName ++ String "/" ("" ++ storagePath))%string
        with (bucketName ++ String "/" storagePath)%string.
      cbn [split_slash_aux Ascii.eqb Bool.eqb].
      rewrite (split_slash_aux_segment bucketName storagePath Hns). reflexivity. }
    rewrite Hsplit.
    assert (Hafter :
      after_first bucketName
        ("" :: "storage" :: "v1" :: "object" :: "public" :: bucketName
            :: split_slash storagePath)
      = Some (split_slash storagePath)).
    { cbn [after_first].
      repeat match goal with
             | |- context [String.eqb ?lit bucketName] =>
                 lazymatch lit with
                 | bucketName => fail
                 | _ =>
                     destruct (String.eqb_spec lit bucketName) as [Heq|_];
                     [exfalso; apply Hnot; rewrite <- Heq; simpl; tauto|]
                 end
             end.
      rewrite String.eqb_refl. reflexivity. }
    rewrite Hafter. unfold split_slash. rewrite concat_split_slash_aux.
    cbn [append]. destruct storagePath; [contradiction|reflexivity].
  - intros e. unfold extractStoragePath. cbv zeta.
    destruct (URL_pathname storageUrl) as [pathname|]; [|intros [= <-]; reflexivity].
    destruct (after_first bucketName (split_slash pathname)) as [parts|];
      [|intros [= <-]; reflexivity].
    destruct (String.concat "/" parts); [intros [= <-]; reflexivity|discriminate].
Qed.

Lemma X14_storage_path_witness :
  extractStoragePath Fixture.URL_pathname
    "https://p.supabase.co/storage/v1/object/public/images/u1/img-front.jpg"
    "images"
  = Ok "u1/img-front.jpg".
Proof.
  apply (X14_storage_path Fixture.URL_pathname
           "https://p.supabase.co/storage/v1/object/public/images/u1/img-front.jpg"
           "images").
  - simpl. repeat split; discriminate.
  - simpl. intros [H|[H|[H|[H|[H|[]]]]]]; discriminate H.
  - discriminate.
  - reflexivity.
Defined.

(** ** How the start route reports failures *)



(** ** The record of an invocation *)






(** ** The latest route after a run *)




(** ** Primary concern and notes of the latest route *)

Lemma insert_sorted_In (x y : SkinTrait) (sorted : list SkinTrait) :
  In y (insert_sorted x sorted) <-> y = x \/ In y sorted.
Proof.
  induction sorted as [|z sorted IH]; simpl.
  - split; [intros [<-|[]]; auto|intros [->|[]]; auto].
  - destruct (severityOrder (severity z) - severityOrder (severity x) <=? 0); simpl.
    + split; [intros [<-|H]; auto|intros [->|H]; auto].
    + rewrite IH. split; [intros [<-|[->|H]]; auto|intros [->|[<-|H]]; auto].
Qed.

Lemma sortTraits_In (y : SkinTrait) (ts : list SkinTrait) :
  In y (sortTraits ts) <-> In y ts.
Proof.
  induction ts as [|t ts IH]; simpl; [tauto|].
  change (sortTraits (t :: ts)) with (insert_sorted t (sortTraits ts)).
  rewrite insert_sorted_In, IH. split; intros [H|H]; auto.
Qed.

Lemma sortTraits_head (before after : list SkinTrait) (t : SkinTrait) :
  (forall u, In u before ->
             severityOrder (severity u) < severityOrder (severity t)) ->
  (forall u, In u after ->
             severityOrder (severity u) <= severityOrder (severity t)) ->
  exists rest, sortTraits (before ++ t :: after) = t :: rest.
Proof.
  intros Hbefore Hafter. induction before as [|b before IH].
  - change (sortTraits ([] ++ t :: after))
      with (insert_sorted t (sortTraits after)).
    destruct (sortTraits after) as [|y rest] eqn:Hsorted; simpl; [eauto|].
    assert (Hy : In y after) by (apply sortTraits_In; rewrite Hsorted; left; reflexivity).
    specialize (Hafter y Hy).
    destruct (Z.leb_spec (severityOrder (severity y) - severityOrder (severity t)) 0);
      [eauto|lia].
  - change (sortTraits ((b :: before) ++ t :: after))
      with (insert_sorted b (sortTraits (before ++ t :: after))).
    destruct IH as [rest ->]; [intros u Hu; apply Hbefore; right; exact Hu|].
    simpl. specialize (Hbefore b (or_introl eq_refl)).
    destruct (Z.leb_spec (severityOrder (severity t) - severityOrder (severity b)) 0);
      [lia|eauto].
Qed.

Lemma firstn_In {A : Type} (n : nat) (l : list A) (x : A) :
  In x (firstn n l) -> In x l.
Proof.
  revert l. induction n as [|n IH]; intros [|y l]; simpl; try tauto.
  intros [->|H]; [left; reflexivity|right; apply IH; exact H].
Qed.

(** X18: primary concern and notes of the latest route. The primary
    concern is the name of the first stored trait of the highest severity
    present (the sort is stable), or "No major concerns" when there is no
    trait or that name is empty. The notes are never empty: each is either
    the fixed fallback text or "name: description" of a stored trait whose
    severity is not low, and a record whose traits are all low gets the
    fallback alone. *)
Theorem X18_latest_concern_and_notes :
  latestPrimaryConcern [] = "No major concerns" /\
  (forall before t after,
      (forall u, In u before ->
                 severityOrder (severity u) < severityOrder (severity t)) ->
      (forall u, In u after ->
                 severityOrder (severity u) <= severityOrder (severity t)) ->
      latestPrimaryConcern (before ++ t :: after)
      = if String.eqb (name t) "" then "No major concerns" else name t) /\
  (forall ts,
      latestNotes ts <> [] /\
      forall note,
        In note (latestNotes ts) ->
        note = "Analysis complete. Check your routine recommendations." \/
        exists t, In t ts /\ severity t <> low /\
                  note = (name t ++ ": " ++ description t)%string) /\
  (forall ts,
      (forall t, In t ts -> severity t = low) ->
      latestNotes ts = ["Analysis complete. Check your routine recommendations."]).
Proof.
  split; [reflexivity|]. split; [|split].
  - intros before t after Hbefore Hafter. unfold latestPrimaryConcern.
    destruct (sortTraits_head before after t Hbefore Hafter) as [rest ->].
    reflexivity.
  - intros ts. unfold latestNotes. cbv zeta.
    destruct (firstn 4 _) as [|n0 rest] eqn:Hbuilt.
    + split; [discriminate|]. intros note [<-|[]]. left. reflexivity.
    + split; [discriminate|]. intros note Hin. right.
      rewrite <- Hbuilt in Hin. apply firstn_In in Hin.
      apply List.in_map_iff in Hin as (t & <- & Ht).
      apply List.filter_In in Ht as [Ht Hsev].
      exists t. split; [exact Ht|]. split; [|reflexivity].
      intros Hlow. rewrite Hlow in Hsev. discriminate.
  - intros ts Hlow. unfold latestNotes. cbv zeta.
    assert (Hfilter : List.filter
              (fun t => negb match severity t with low => true | _ => false end) ts
            = []).
    { induction ts as [|t ts IH]; [reflexivity|]. simpl.
      rewrite (Hlow t (or_introl eq_refl)). simpl.
      apply IH. intros u Hu. apply Hlow. right. exact Hu. }
    rewrite Hfilter. reflexivity.
Qed.

Lemma X18_latest_concern_and_notes_witness :
  latestPrimaryConcern
    ([mkSkinTrait "dryness" "Dryness" low "Dry cheeks"]
       ++ mkSkinTrait "acne" "Acne" high "Active breakouts"
       :: [mkSkinTrait "oiliness" "Oiliness" high "Oily T-zone";
           mkSkinTrait "redness" "Redness" moderate "Flushed cheeks"])
  = "Acne".
Proof.
  apply (proj1 (proj2 X18_latest_concern_and_notes)
           [mkSkinTrait "dryness" "Dryness" low "Dry cheeks"]
           (mkSkinTrait "acne" "Acne" high "Active breakouts")
           [mkSkinTrait "oiliness" "Oiliness" high "Oily T-zone";
            mkSkinTrait "redness" "Redness" moderate "Flushed cheeks"]).
  - intros u [<-|[]]. simpl. lia.
  - intros u [<-|[<-|[]]]; simpl; lia.
Defined.

(** ** Status lifecycle *)

(** X19: the statuses an invocation writes follow the lifecycle. The
    writes that take effect store statuses in strictly increasing lifecycle
    order (uploading, screening, detecting, generating, then complete or
    error), whichever updates fail; [complete] and [error] are never both
    written; the invocation returns exactly when the [complete] update took
    effect; and when the insert fails nothing is written and the vision
    client is not called. *)
Theorem X19_status_lifecycle (JSON_parse : string -> option JSON)
  (URL_pathname : string -> option string) (USER_PHOTOS : string)
  (env : ServiceEnv) (userId : string) :
  let run :=
    startOpenAIVisionAnalysis JSON_parse URL_pathname USER_PHOTOS env userId in
  let written := statuses_written (fst (fst run)) in
  increasing_after 0 (List.map lifecycle_rank written) /\
  ~ (In complete written /\ In error written) /\
  ((exists summary, snd run = Ok summary) <-> In complete written) /\
  (forall m, insert_outcome env = Err m ->
             fst (fst run) = [] /\ snd (fst run) = []) /\
  (forall analysisId createdAt,
      insert_outcome env = Ok (analysisId, createdAt) ->
      exists rest,
        fst (fst run) = Insert (new_row analysisId userId createdAt) :: rest /\
        forall w, In w rest -> exists patch, w = Update analysisId patch).
Proof.
  cbv zeta. rewrite start_unfold.
  destruct (insert_outcome env) as [[analysisId createdAt]|m].
  - cbv zeta. unfold error_update, try_update. cbn [patch_status].
    destruct (getSignedImageUrls URL_pathname USER_PHOTOS (storage env) userId)
      as [[urls imageIds]|ie];
      [destruct (snd (callVision JSON_parse URL_pathname (vision env) urls))
         as [v|ve]; [destruct (update_ok env complete) eqn:Hok|]|];
      destruct (String.eqb analysisId "");
      destruct (update_ok env screening); try destruct (update_ok env detecting);
      try destruct (update_ok env generating); try destruct (update_ok env error);
      try rewrite Hok; cbn;
      (split; [repeat split; lia|]);
      (split; [intros [Hc He]; intuition discriminate|]);
      (split; [split;
               [intros [summary Hs]; first [discriminate Hs|intuition auto]
               |intros Hc; first [eexists; reflexivity|intuition discriminate]]|]);
      (split; [intros m0 Hm0; discriminate Hm0|]);
      intros a c [= <- <-]; eexists; (split; [reflexivity|]);
      intros w Hw; cbn in Hw; intuition (subst; eauto).
  - cbn. split; [exact I|]. split; [tauto|].
    split; [split; [intros [summary Hs]; discriminate Hs|intros []]|].
    split; [intros m0 _; split; reflexivity|]. intros a c Ha. discriminate Ha.
Qed.

Lemma X19_status_lifecycle_witness :
  exists rest,
    fst (fst Fixture.combination_run)
    = Insert (new_row "a1" "u1" 100) :: rest /\
    forall w, In w rest -> exists patch, w = Update "a1" patch.
Proof.
  apply (X19_status_lifecycle Fixture.JSON_parse Fixture.URL_pathname
           Fixture.USER_PHOTOS
           (Fixture.service_env Fixture.all_images (Fixture.replies "<combination>"))
           "u1").
  reflexivity.
Defined.
